(** * Hyperdimensional-computing prototype: bind, bundle, cosine similarity
      and the associative memory of [hdc_prototype.py].

    The arrays the module produces are one-dimensional NumPy arrays of dtype
    [int8] ([random_hypervector], [bundle] and [bind] all end in
    [.astype(np.int8)]); they are modelled as lists of integers whose
    arithmetic wraps as NumPy's does.  Python floats are IEEE binary64
    numbers, modelled by the primitive floats. *)

From Stdlib Require Import String.
From Stdlib Require Import ZArith List Bool Lia.
From Stdlib Require Import Permutation Sorted.
From Stdlib Require Import Floats Uint63.
Import ListNotations.

Local Open Scope Z_scope.

(** ** Failures *)

(** Every failure of the module is a Python [ValueError]; the constructors
    tell the raising sites apart: the explicit guard of [bundle], NumPy
    refusing operands whose shapes do not agree, NumPy refusing a negative
    size, and [np.random.seed] refusing a seed outside [0, 2^32 - 1]. *)
Inductive error : Type :=
| EmptyInput
| DimensionMismatch
| InvalidArgument
| InvalidSeed.

Inductive result (A : Type) : Type :=
| OK (a : A)
| Error (e : error).

Arguments OK {A} a.
Arguments Error {A} e.

Definition rbind {A B : Type} (r : result A) (k : A -> result B) : result B :=
  match r with
  | OK a => k a
  | Error e => Error e
  end.

Notation "x <- c ;; k" := (rbind c (fun x => k))
  (at level 61, c at next level, right associativity).

(** ** Fixed-width integers *)

Module Int.

(** Two's-complement reduction to [w] bits. *)
Definition wrap (w : Z) (z : Z) : Z :=
  (z + 2 ^ (w - 1)) mod 2 ^ w - 2 ^ (w - 1).

Definition wrap8 : Z -> Z := wrap 8.
Definition wrap64 : Z -> Z := wrap 64.

Definition mul8 (x y : Z) : Z := wrap8 (x * y).
Definition add64 (x y : Z) : Z := wrap64 (x + y).

End Int.

(** ** Floats *)

Module Float.

(** The float64 value of an integer below [2^63] in magnitude (exact below
    [2^53], rounded to nearest above). *)
Definition of_Z (z : Z) : float :=
  if z <? 0
  then PrimFloat.opp (PrimFloat.of_uint63 (Uint63.of_Z (- z)))
  else PrimFloat.of_uint63 (Uint63.of_Z z).

End Float.

(** ** Arrays *)

(** A one-dimensional integer array. *)
Definition ndarray : Type := list Z.

(** A hypervector component is exactly -1 or +1. *)
Definition bipolar (v : ndarray) : Prop :=
  Forall (fun x => x = -1 \/ x = 1) v.

Definition bipolarb (v : ndarray) : bool :=
  forallb (fun x => (x =? -1) || (x =? 1)) v.

Definition negate (v : ndarray) : ndarray := map Z.opp v.

Module Np.

Fixpoint zip_with {A B C : Type} (f : A -> B -> C)
         (l1 : list A) (l2 : list B) : list C :=
  match l1, l2 with
  | x :: l1', y :: l2' => f x y :: zip_with f l1' l2'
  | _, _ => []
  end.

(** [ndarray.astype(np.int8)]. *)
Definition astype_int8 (v : ndarray) : ndarray := map Int.wrap8 v.

(** [np.multiply] on two one-dimensional [int8] arrays: element-wise when
    the lengths agree, a length-1 operand is broadcast over the other, and
    any other pair of shapes is refused. *)
Definition multiply (a b : ndarray) : result ndarray :=
  if (length a =? length b)%nat then OK (zip_with Int.mul8 a b)
  else match a, b with
       | [x], _ => OK (map (fun y => Int.mul8 x y) b)
       | _, [y] => OK (map (fun x => Int.mul8 x y) a)
       | _, _ => Error DimensionMismatch
       end.

(** [np.dot] on two one-dimensional [int8] arrays: the lengths must
    agree, and the result has the operands' dtype, so the accumulated sum
    of products is stored back into an [int8]. *)
Definition dot (a b : ndarray) : result Z :=
  if (length a =? length b)%nat
  then OK (Int.wrap8 (fold_right Z.add 0 (zip_with Z.mul a b)))
  else Error DimensionMismatch.

(** [np.linalg.norm] of a one-dimensional integer array: the array is
    converted to float64 and the norm is [sqrt(x.dot(x))].  The squares
    and their partial sums are integers, which float64 holds exactly below
    [2^53], so the sum is taken in [Z] and converted once. *)
Definition norm (a : ndarray) : float :=
  PrimFloat.sqrt (Float.of_Z (fold_right Z.add 0 (map (fun x => x * x) a))).

(** [np.sum(rows, axis=0)] for a non-empty list of one-dimensional [int8]
    arrays [first :: rest]: the list becomes a two-dimensional array, which
    NumPy (1.24 and later) refuses when the rows differ in length, and the
    columns are added up in the platform integer, [int64]. *)
Definition sum_axis0 (first : ndarray) (rest : list ndarray) : result ndarray :=
  if forallb (fun r => (length r =? length first)%nat) rest
  then OK (fold_left (zip_with Int.add64) rest (map Int.wrap64 first))
  else Error DimensionMismatch.

(** [np.where(summed >= 0, 1, -1)]. *)
Definition where_nonneg (summed : ndarray) : ndarray :=
  map (fun s => if 0 <=? s then 1 else -1) summed.

End Np.

(** ** Algebra *)

(** The default dimension of [random_hypervector]. *)
Definition DIMENSION : Z := 10000.

(** [bundle(vectors)]: majority vote, a zero sum giving +1. *)
Definition bundle (vectors : list ndarray) : result ndarray :=
  match vectors with
  | [] => Error EmptyInput
  | first :: rest =>
      summed <- Np.sum_axis0 first rest ;;
      OK (Np.astype_int8 (Np.where_nonneg summed))
  end.

(** [bind(a, b) = np.multiply(a, b).astype(np.int8)]. *)
Definition bind (a b : ndarray) : result ndarray :=
  p <- Np.multiply a b ;;
  OK (Np.astype_int8 p).

(** [cosine_similarity(a, b)]: [np.dot] is evaluated first and raises on
    differing lengths; the division is float64 division, which yields NaN
    (with a warning, not an exception) for 0 / 0. *)
Definition cosine_similarity (a b : ndarray) : result float :=
  d <- Np.dot a b ;;
  OK (Float.of_Z d / (Np.norm a * Np.norm b))%float.

(** ** Random generation *)

(** The generators of CPython's [random] and of [np.random] are not part of
    the module; they are taken as an interface: seeding, which depends on
    the seed alone, and one draw of [randint(0, 2)], the index that
    [np.random.choice] uses to pick from the two-element population. *)
Class Generators (py_rng np_rng : Type) : Type := {
  random_seed : Z -> py_rng;
  np_random_seed : Z -> np_rng;
  randint_0_2 : np_rng -> bool * np_rng
}.

Section Generator.

Context {py_rng np_rng : Type} `{G : Generators py_rng np_rng}.

(** The process-wide random state. *)
Record world : Type := {
  py_state : py_rng;
  np_state : np_rng
}.

(** Code that reads and writes the process-wide state and may raise. *)
Definition M (A : Type) : Type := world -> result A * world.

(** [set_seed(seed)]: [random.seed] takes any integer; [np.random.seed]
    then refuses a seed outside [0, 2^32 - 1]. *)
Definition set_seed (seed : Z) : M unit :=
  fun w =>
    let w1 := {| py_state := random_seed seed; np_state := np_state w |} in
    if (0 <=? seed) && (seed <? 2 ^ 32)
    then (OK tt, {| py_state := py_state w1; np_state := np_random_seed seed |})
    else (Error InvalidSeed, w1).

Fixpoint draw_indices (n : nat) (s : np_rng) : list bool * np_rng :=
  match n with
  | O => ([], s)
  | S n' =>
      let (i, s1) := randint_0_2 s in
      let (l, s2) := draw_indices n' s1 in
      (i :: l, s2)
  end.

(** [np.random.choice([-1, 1], size=size)]: a negative size is refused,
    otherwise [size] indices are drawn and looked up in the population. *)
Definition choice (size : Z) (s : np_rng) : result ndarray * np_rng :=
  if size <? 0 then (Error InvalidArgument, s)
  else
    let (idx, s') := draw_indices (Z.to_nat size) s in
    (OK (map (fun i : bool => nth (if i then 1%nat else 0%nat) [-1; 1] 0) idx), s').

(** [random_hypervector(dimension)]. *)
Definition random_hypervector (dimension : Z) : M ndarray :=
  fun w =>
    match choice dimension (np_state w) with
    | (OK v, s') =>
        (OK (Np.astype_int8 v), {| py_state := py_state w; np_state := s' |})
    | (Error e, _) => (Error e, w)
    end.

(** The outcomes of a sequence of [random_hypervector] calls, one per
    requested dimension, up to and including the first call that raises. *)
Fixpoint run_calls (dims : list Z) (w : world) : list (result ndarray) :=
  match dims with
  | [] => []
  | d :: ds =>
      match random_hypervector d w with
      | (OK v, w') => OK v :: run_calls ds w'
      | (Error e, _) => [Error e]
      end
  end.

(** A run that begins with [set_seed(seed)] and then issues the calls. *)
Definition seeded_run (seed : Z) (dims : list Z) (w : world)
  : list (result ndarray) :=
  match set_seed seed w with
  | (OK _, w') => run_calls dims w'
  | (Error e, _) => [Error e]
  end.

End Generator.

Arguments world : clear implicits.

(** A small linear congruential generator, to run the model on. *)
Definition lcg_step (s : Z) : Z := (s * 1103515245 + 12345) mod 2 ^ 31.

#[export] Instance lcg : Generators Z Z := {
  random_seed := fun seed => seed;
  np_random_seed := fun seed => seed;
  randint_0_2 := fun s => (Z.testbit (lcg_step s) 16, lcg_step s)
}.

(** ** Associative memory *)

(** [sorted(l, key=key, reverse=True)] on keys that [<] orders: a stable
    sort into descending order that compares keys with [<] only.  An
    element is placed before the first element whose key it is not less
    than.  Whenever [<] orders the keys this is the list every stable sort
    returns, Python's among them; the keys of [Counter.most_common] below
    are integers. *)
Section PySorted.

Context {A K : Type} (lt : K -> K -> bool) (key : A -> K).

Fixpoint insert_desc (x : A) (l : list A) : list A :=
  match l with
  | [] => [x]
  | y :: l' =>
      if lt (key x) (key y) then y :: insert_desc x l' else x :: l
  end.

Definition sorted_reverse (l : list A) : list A :=
  fold_right insert_desc [] l.

End PySorted.

(** [list.sort] as CPython 3.11 runs it on a list of fewer than 64 items, where
    the whole list is one run: [count_run] finds the run the list starts
    with, a strictly descending one is reversed, and [binarysort] inserts
    the remaining items one by one at the place a binary search finds.
    Keys are compared with [<] alone.  (Longer lists are cut into several
    runs that are merged.) *)
Section ListSort.

Context {A K : Type} (lt : K -> K -> bool) (key : A -> K).

(** How many further items continue a run that is not descending, and a
    run that is strictly descending, after [prev]. *)
Fixpoint ascending_run (prev : A) (l : list A) : nat :=
  match l with
  | [] => O
  | x :: l' => if lt (key x) (key prev) then O else S (ascending_run x l')
  end.

Fixpoint descending_run (prev : A) (l : list A) : nat :=
  match l with
  | [] => O
  | x :: l' => if lt (key x) (key prev) then S (descending_run x l') else O
  end.

(** [count_run]: the length of the first run, and whether it descends. *)
Definition count_run (l : list A) : nat * bool :=
  match l with
  | [] => (O, false)
  | [x] => (1%nat, false)
  | x0 :: x1 :: l' =>
      if lt (key x1) (key x0) then (S (S (descending_run x1 l')), true)
      else (S (S (ascending_run x1 l')), false)
  end.

(** The binary search of [binarysort]: between [l] and [r], the middle
    item decides which half is kept, until the two meet. *)
Fixpoint bisect (fuel : nat) (pivot : A) (run : list A) (l r : nat) : nat :=
  match fuel with
  | O => l
  | S fuel' =>
      if Nat.ltb l r then
        let p := (l + Nat.div2 (r - l))%nat in
        match nth_error run p with
        | Some y =>
            if lt (key pivot) (key y) then bisect fuel' pivot run l p
            else bisect fuel' pivot run (S p) r
        | None => l
        end
      else l
  end.

Definition binary_insert (run : list A) (pivot : A) : list A :=
  let l := bisect (S (length run)) pivot run O (length run) in
  firstn l run ++ pivot :: skipn l run.

Definition binarysort (run rest : list A) : list A :=
  fold_left binary_insert rest run.

Definition list_sort (l : list A) : list A :=
  let (n, descending) := count_run l in
  let run := firstn n l in
  binarysort (if descending then rev run else run) (skipn n l).

(** [sorted(l, key=key, reverse=True)]: the list is reversed, sorted, and
    reversed again. *)
Definition list_sort_reverse (l : list A) : list A :=
  rev (list_sort (rev l)).

End ListSort.

(** A Python [dict] with string keys: the entries in insertion order, no key
    twice. *)
Definition dict (V : Type) : Type := list (string * V).

Module Dict.

Definition keys {V} (d : dict V) : list string := map fst d.

Fixpoint get {V} (k : string) (d : dict V) : option V :=
  match d with
  | [] => None
  | (k', v) :: d' => if String.eqb k' k then Some v else get k d'
  end.

(** [d[k] = v]: an existing key keeps its place and takes the new value, a
    new key goes to the end. *)
Fixpoint set {V} (k : string) (v : V) (d : dict V) : dict V :=
  match d with
  | [] => [(k, v)]
  | (k', x) :: d' =>
      if String.eqb k' k then (k', v) :: d' else (k', x) :: set k v d'
  end.

End Dict.

Record HDCDictionary : Type := {
  items : dict ndarray
}.

(** [HDCDictionary.add(key, vector)]. *)
Definition add (key : string) (vector : ndarray) (self : HDCDictionary)
  : HDCDictionary :=
  {| items := Dict.set key vector (items self) |}.

(** The list comprehension of [query]: the entries are scored in the
    dictionary's order, and the first failing call ends it. *)
Fixpoint scores (vector : ndarray) (d : dict ndarray)
  : result (list (string * float)) :=
  match d with
  | [] => OK []
  | (key, stored) :: d' =>
      s <- cosine_similarity vector stored ;;
      rest <- scores vector d' ;;
      OK ((key, s) :: rest)
  end.

(** [HDCDictionary.query(vector)].  The scores are floats, and one of
    them can be NaN, which [<] does not order; where Python's sort then
    puts the entries is left to its implementation.  So the call
    [sorted(scores, key=lambda x: x[1], reverse=True)] is taken as given,
    [sorted]: the statements say what they use of Python's sort
    ([rearranges], [sorts_stably] below), and [cpython_sorted] is what
    CPython computes for fewer than 64 entries. *)
Definition query (sorted : list (string * float) -> list (string * float))
    (vector : ndarray) (self : HDCDictionary)
  : result (list (string * float)) :=
  sc <- scores vector (items self) ;;
  OK (sorted sc).

(** ** Vocabulary of the statements *)

Definition empty_memory : HDCDictionary := {| items := [] |}.

(** The memory after a sequence of [add] calls. *)
Definition add_all (ops : list (string * ndarray)) (m : HDCDictionary)
  : HDCDictionary :=
  fold_left (fun m kv => add (fst kv) (snd kv) m) ops m.

Definition mem (k : string) (l : list string) : bool :=
  existsb (String.eqb k) l.

(** The distinct keys of a sequence, each at its first occurrence. *)
Fixpoint first_added (ks : list string) : list string :=
  match ks with
  | [] => []
  | k :: ks' => k :: filter (fun k' => negb (String.eqb k' k)) (first_added ks')
  end.

(** The sign that [bundle] gives a column sum. *)
Definition sign_nonneg (s : Z) : Z := if 0 <=? s then 1 else -1.

(** The sum of the [i]-th components of the rows. *)
Definition column_sum (i : nat) (rows : list ndarray) : Z :=
  fold_right Z.add 0 (map (fun r => nth i r 0) rows).

(** No score of the list is NaN. *)
Definition no_nan (l : list (string * float)) : Prop :=
  Forall (fun e => PrimFloat.is_nan (snd e) = false) l.

(** A ranking is in descending order of score. *)
Definition ranked (l : list (string * float)) : Prop :=
  StronglySorted (fun x y => (snd y <=? snd x)%float = true) l.

(** What Python's sort does with every list: it rearranges it. *)
Definition rearranges
    (sorted : list (string * float) -> list (string * float)) : Prop :=
  forall l, Permutation (sorted l) l.

(** What Python's sort promises where [<] orders the keys, here where no
    score is NaN: the result is in descending order, and it is stable,
    the entries of equal score keeping the order they had. *)
Definition sorts_stably
    (sorted : list (string * float) -> list (string * float)) : Prop :=
  forall l, no_nan l ->
    ranked (sorted l)
    /\ forall s, filter (fun e => (snd e =? s)%float) (sorted l)
                 = filter (fun e => (snd e =? s)%float) l.

(** CPython's [sorted(scores, key=lambda x: x[1], reverse=True)] for fewer
    than 64 entries. *)
Definition cpython_sorted (l : list (string * float)) : list (string * float) :=
  list_sort_reverse PrimFloat.ltb snd l.

(** The float64 quotient that [cosine_similarity] forms when the dot
    product is [D] (respectively [-D]) and both norms are [sqrt D]. *)
Definition self_similarity (D : Z) : float :=
  (Float.of_Z D
   / (PrimFloat.sqrt (Float.of_Z D) * PrimFloat.sqrt (Float.of_Z D)))%float.

Definition opposite_similarity (D : Z) : float :=
  (Float.of_Z (- D)
   / (PrimFloat.sqrt (Float.of_Z D) * PrimFloat.sqrt (Float.of_Z D)))%float.

(** The spacing of the floats just above 1.0, [2^-52]. *)
Definition rounding_unit : float := 0x1p-52%float.

Definition within_rounding_of_one (D : Z) : bool :=
  (PrimFloat.abs (self_similarity D - 1) <=? rounding_unit)%float
  && (PrimFloat.abs (opposite_similarity D + 1) <=? rounding_unit)%float.

(** The classes of the finite floats. *)
Definition finite_class (c : float_class) : bool :=
  match c with
  | PNormal | NNormal | PSubn | NSubn | PZero | NZero => true
  | _ => false
  end.

(** The finite floats that are at least 1 (a mantissa of [d] digits with
    exponent [e] is at least [2^(d + e - 1)]), and plus infinity. *)
Definition ge_one (x : spec_float) : Prop :=
  match x with
  | S754_infinity false => True
  | S754_finite false m e => 1 <= Zpos (digits2_pos m) + e
  | _ => False
  end.

(** ** The demonstration script *)

Section Script.

Context {py_rng np_rng : Type} `{G : Generators py_rng np_rng}.

Variable sorted : list (string * float) -> list (string * float).

Definition mbind {A B : Type} (c : @M py_rng np_rng A)
    (k : A -> @M py_rng np_rng B) : @M py_rng np_rng B :=
  fun w =>
    match c w with
    | (OK a, w') => k a w'
    | (Error e, w') => (Error e, w')
    end.

(** A call that does not touch the random state. *)
Definition pure_call {A : Type} (r : result A) : @M py_rng np_rng A :=
  fun w => (r, w).

Notation "x <~ c ;; k" := (mbind c (fun x => k))
  (at level 61, c at next level, right associativity).

(** The body of [if __name__ == "__main__"], up to the list [results] that
    the final loop prints. *)
Definition main : @M py_rng np_rng (list (string * float)) :=
  _ <~ set_seed 42 ;;
  crop <~ random_hypervector DIMENSION ;;
  status <~ random_hypervector DIMENSION ;;
  region <~ random_hypervector DIMENSION ;;
  cannabis <~ random_hypervector DIMENSION ;;
  approved <~ random_hypervector DIMENSION ;;
  chiang_mai <~ random_hypervector DIMENSION ;;
  p1 <~ pure_call (bind crop cannabis) ;;
  p2 <~ pure_call (bind status approved) ;;
  p3 <~ pure_call (bind region chiang_mai) ;;
  farm_profile <~ pure_call (bundle [p1; p2; p3]) ;;
  let memory := add "farm_123" farm_profile {| items := [] |} in
  q1 <~ pure_call (bind crop cannabis) ;;
  q2 <~ pure_call (bind region chiang_mai) ;;
  query_vector <~ pure_call (bundle [q1; q2]) ;;
  pure_call (query sorted query_vector memory).

End Script.

(** ** Confusion-matrix metrics ([evaluate_metrics.py]) *)

(** The exceptions the scripts raise, with their messages. *)
Inductive exception : Type :=
| ValueError (message : string)
| KeyError (message : string)
| FileNotFoundError (message : string)
| ZeroDivisionError
| IndexError.

Inductive outcome (A : Type) : Type :=
| Return (a : A)
| Raise (e : exception).

Arguments Return {A} a.
Arguments Raise {A} e.

Definition obind {A B : Type} (o : outcome A) (k : A -> outcome B) : outcome B :=
  match o with
  | Return a => k a
  | Raise e => Raise e
  end.

Notation "x <-- c ;; k" := (obind c (fun x => k))
  (at level 61, c at next level, right associativity).

Module Py.

(** [a / b] on two integers: true division, which raises on a zero divisor.
    The quotient is the float nearest to the exact one; below [2^53] both
    operands are floats exactly, and it is the quotient of the floats. *)
Definition int_truediv (a b : Z) : outcome float :=
  if b =? 0 then Raise ZeroDivisionError
  else Return (Float.of_Z a / Float.of_Z b)%float.

(** [x / y] on two floats, which raises on a zero divisor. *)
Definition float_truediv (x y : float) : outcome float :=
  if (y =? 0)%float then Raise ZeroDivisionError
  else Return (x / y)%float.

(** The truth value of a float: anything but zero. *)
Definition float_bool (x : float) : bool := negb (x =? 0)%float.

End Py.

Module Metrics.

Record RunResult : Type := {
  name : string;
  total : Z;
  tp : Z;
  fp : Z;
  tn : Z;
  fn : Z;
  precision : float;
  recall : float;
  f1 : float;
  fpr : float;
  fnr : float
}.

(** The four counters [tp, fp, tn, fn]. *)
Definition counters : Type := (Z * Z * Z * Z)%type.

(** One turn of the counting loop. *)
Definition count_row (c : counters) (row : bool * bool) : counters :=
  let '(tp, fp, tn, fn) := c in
  let (true_val, pred_val) := row in
  if true_val && pred_val then (tp + 1, fp, tn, fn)
  else if true_val && negb pred_val then (tp, fp, tn, fn + 1)
  else if negb true_val && pred_val then (tp, fp + 1, tn, fn)
  else (tp, fp, tn + 1, fn).

(** [compute_metrics(name, rows)]. *)
Definition compute_metrics (name : string) (rows : list (bool * bool))
  : outcome RunResult :=
  let '(tp, fp, tn, fn) := fold_left count_row rows (0, 0, 0, 0) in
  let total := tp + fp + tn + fn in
  precision <-- (if negb (tp + fp =? 0) then Py.int_truediv tp (tp + fp)
                 else Return 0%float) ;;
  recall <-- (if negb (tp + fn =? 0) then Py.int_truediv tp (tp + fn)
              else Return 0%float) ;;
  f1 <-- (if Py.float_bool (precision + recall)
          then Py.float_truediv (2 * precision * recall) (precision + recall)
          else Return 0%float) ;;
  fpr <-- (if negb (fp + tn =? 0) then Py.int_truediv fp (fp + tn)
           else Return 0%float) ;;
  fnr <-- (if negb (fn + tp =? 0) then Py.int_truediv fn (fn + tp)
           else Return 0%float) ;;
  Return {| name := name; total := total; tp := tp; fp := fp; tn := tn; fn := fn;
            precision := precision; recall := recall; f1 := f1;
            fpr := fpr; fnr := fnr |}.

(** The first occurrence of the character [c] cuts a string in two:
    [s.split(c, 1)] when [c in s]. *)
Fixpoint split_once (c : Ascii.ascii) (s : string) : option (string * string) :=
  match s with
  | EmptyString => None
  | String a s' =>
      if Ascii.eqb a c then Some (EmptyString, s')
      else match split_once c s' with
           | Some (l, r) => Some (String a l, r)
           | None => None
           end
  end.

(** The character ["="]. *)
Definition equals_sign : Ascii.ascii := Ascii.ascii_of_nat 61.

Section Paths.

(** [pathlib.Path] and the file system are taken as given: making a path
    of a string, printing it, and asking whether the file is there. *)
Variables (path : Type) (Path : string -> path) (path_str : path -> string)
          (path_exists : path -> bool).

(** [parse_run_argument(arg)].  A string is held as its UTF-8 bytes, among
    which the byte of ["="] only stands for that character. *)
Definition parse_run_argument (arg : string) : outcome (string * path) :=
  match split_once equals_sign arg with
  | None => Raise (ValueError "Run argument must be in NAME=PATH format.")
  | Some (name, raw_path) =>
      if String.eqb name "" then Raise (ValueError "Run name cannot be empty.")
      else
        let p := Path raw_path in
        if path_exists p then Return (name, p)
        else Raise (FileNotFoundError
                     (String.append "Run file not found: " (path_str p)))
  end.

End Paths.

(** Whether a character occurs in a string. *)
Fixpoint occurs (c : Ascii.ascii) (s : string) : bool :=
  match s with
  | EmptyString => false
  | String a s' => Ascii.eqb a c || occurs c s'
  end.

End Metrics.

(** ** Feature collapsing ([prepare_risk_scoring_dataset.py]) *)

(** [sorted(l)]: the stable sort into ascending order, comparing with [<]
    only.  An element is placed before the first element that is not less
    than it. *)
Section PySortedAscending.

Context {A : Type} (lt : A -> A -> bool).

Fixpoint insert_asc (x : A) (l : list A) : list A :=
  match l with
  | [] => [x]
  | y :: l' => if lt y x then y :: insert_asc x l' else x :: l
  end.

Definition sorted_asc (l : list A) : list A := fold_right insert_asc [] l.

End PySortedAscending.

Module Dataset.

(** [collections.Counter(l)]: a dict from each element to the number of
    times it occurs, in the order of first occurrence. *)
Definition counter_incr (d : dict Z) (x : string) : dict Z :=
  Dict.set x (match Dict.get x d with Some n => n + 1 | None => 1 end) d.

Definition Counter (l : list string) : dict Z := fold_left counter_incr l [].

(** [Counter.most_common()]: the items, by descending count, stably. *)
Definition most_common (c : dict Z) : list (string * Z) :=
  sorted_reverse Z.ltb snd c.

Section Collapse.

(** Three library functions are taken as given: [str.strip], [float] on a
    string ([None] standing for its [ValueError]), and the formatting of
    the mean, [f"{mean(numeric):.6f}"]. *)
Variables (strip : string -> string)
          (parse_float : string -> option float)
          (format_mean : list float -> string).

(** [[value for value in (v.strip() for v in values) if value]]. *)
Definition cleaned (values : list string) : list string :=
  filter (fun value => negb (String.eqb value "")) (map strip values).

(** The loop that sorts the cleaned values into [numeric] and
    [non_numeric], each in the order met. *)
Fixpoint split_numeric (l : list string) : list float * list string :=
  match l with
  | [] => ([], [])
  | value :: l' =>
      let (numeric, non_numeric) := split_numeric l' in
      match parse_float value with
      | Some x => (x :: numeric, non_numeric)
      | None => (numeric, value :: non_numeric)
      end
  end.

Definition is_empty {A} (l : list A) : bool :=
  match l with [] => true | _ => false end.

(** [l[0]] and [l[-1]]. *)
Definition first_item {A} (l : list A) : outcome A :=
  match l with [] => Raise IndexError | x :: _ => Return x end.

Definition last_item {A} (l : list A) : outcome A := first_item (rev l).

(** [collapse(values)]. *)
Definition collapse (values : list string) : outcome string :=
  let cl := cleaned values in
  if is_empty cl then Return ""%string
  else
    let (numeric, non_numeric) := split_numeric cl in
    if negb (is_empty numeric) && (length numeric =? length cl)%nat
    then Return (format_mean numeric)
    else if negb (is_empty non_numeric) then
      let counts := Counter non_numeric in
      let highest := most_common counts in
      top <-- first_item highest ;;
      let max_count := snd top in
      let candidates :=
        sorted_asc String.ltb
          (map fst (filter (fun ic => snd ic =? max_count) highest)) in
      first_item candidates
    else last_item cl.

End Collapse.

(** The accumulator: for each entity, for each feature, the values met.
    Looking a missing key up in a [defaultdict] puts the default in, at the
    end. *)
Definition accumulator : Type := dict (dict (list string)).

Definition entity_columns (entity_id : string) (acc : accumulator)
  : dict (list string) :=
  match Dict.get entity_id acc with Some columns => columns | None => [] end.

Definition column_values (key : string) (columns : dict (list string))
  : list string :=
  match Dict.get key columns with Some l => l | None => [] end.

(** [accumulator[entity_id][key].append(value)]. *)
Definition append_value (entity_id key value : string) (acc : accumulator)
  : accumulator :=
  let columns := entity_columns entity_id acc in
  Dict.set entity_id
    (Dict.set key (column_values key columns ++ [value]) columns) acc.

Section Accumulate.

(** [str.strip] and [str] of an integer are taken as given. *)
Variables (strip : string -> string) (str_int : Z -> string).

Variables (dataset_name id_field : string).

(** [f"{dataset_name}__{column}"]. *)
Definition feature_key (column : string) : string :=
  String.append dataset_name (String.append "__" column).

(** The inner loop over the items of one row. *)
Definition accumulate_row (entity_id : string) (row : dict string)
    (acc : accumulator) : accumulator :=
  fold_left
    (fun acc cv =>
       if String.eqb (fst cv) id_field then acc
       else append_value entity_id (feature_key (fst cv)) (snd cv) acc)
    row acc.

(** The loop over the rows: the counter and the accumulator as they are
    when it ends or raises. *)
Fixpoint accumulate_rows (rows : list (dict string)) (counts : dict Z)
    (acc : accumulator) : outcome (dict Z) * accumulator :=
  match rows with
  | [] => (Return counts, acc)
  | row :: rows' =>
      match Dict.get id_field row with
      | None =>
          (Raise (KeyError
             (String.append "Missing id field '"
                (String.append id_field
                   (String.append "' in dataset '"
                      (String.append dataset_name "'."))))), acc)
      | Some raw =>
          let entity_id := strip raw in
          if String.eqb entity_id "" then accumulate_rows rows' counts acc
          else accumulate_rows rows' (counter_incr counts entity_id)
                 (accumulate_row entity_id row acc)
      end
  end.

(** [accumulate_dataset(dataset_name, rows, id_field, accumulator)]: what
    it raises, if anything, and the accumulator it leaves. *)
Definition accumulate_dataset (rows : list (dict string)) (acc : accumulator)
  : outcome unit * accumulator :=
  match accumulate_rows rows [] acc with
  | (Return counts, acc') =>
      (Return tt,
       fold_left
         (fun acc et =>
            append_value (fst et) (feature_key "records") (str_int (snd et)) acc)
         counts acc')
  | (Raise e, acc') => (Raise e, acc')
  end.

End Accumulate.

End Dataset.

(** ** Vocabulary of the further statements *)

(** The number of rows that satisfy [p]. *)
Definition count_rows (p : bool * bool -> bool) (rows : list (bool * bool)) : Z :=
  Z.of_nat (length (filter p rows)).

(** [a / b if b else 0.0]. *)
Definition guarded_ratio (a b : Z) : float :=
  if b =? 0 then 0%float else (Float.of_Z a / Float.of_Z b)%float.

(** [2 * p * r / (p + r) if (p + r) else 0.0]. *)
Definition guarded_f1 (p r : float) : float :=
  if (p + r =? 0)%float then 0%float else (2 * p * r / (p + r))%float.

(** How often a string occurs in a list. *)
Definition occurrences (l : list string) (x : string) : Z :=
  Z.of_nat (count_occ string_dec l x).

(** The cleaned values that [float] does not read. *)
Definition non_numeric_values (strip : string -> string)
    (parse_float : string -> option float) (values : list string) : list string :=
  filter (fun v => match parse_float v with None => true | Some _ => false end)
         (Dataset.cleaned strip values).

(** The floats of the cleaned values that [float] reads. *)
Fixpoint numeric_values (parse_float : string -> option float)
    (l : list string) : list float :=
  match l with
  | [] => []
  | v :: l' =>
      match parse_float v with
      | Some x => x :: numeric_values parse_float l'
      | None => numeric_values parse_float l'
      end
  end.

(** The values an accumulator holds for an entity and a feature. *)
Definition held (acc : Dataset.accumulator) (entity_id key : string) : list string :=
  Dataset.column_values key (Dataset.entity_columns entity_id acc).

(** The rows of an entity: those whose stripped identifier it is. *)
Definition rows_of (strip : string -> string) (id_field entity_id : string)
    (rows : list (dict string)) : list (dict string) :=
  filter (fun row =>
            match Dict.get id_field row with
            | Some raw => String.eqb (strip raw) entity_id
            | None => false
            end) rows.

(** The values of a column in a list of rows, in order, a row without the
    column giving none. *)
Fixpoint values_of (column : string) (rows : list (dict string)) : list string :=
  match rows with
  | [] => []
  | row :: rows' =>
      match Dict.get column row with
      | Some v => v :: values_of column rows'
      | None => values_of column rows'
      end
  end.

(** The identifiers that [accumulate_dataset] counts: those of the rows,
    stripped, the empty ones left out. *)
Fixpoint counted_ids (strip : string -> string) (id_field : string)
    (rows : list (dict string)) : list string :=
  match rows with
  | [] => []
  | row :: rows' =>
      match Dict.get id_field row with
      | Some raw =>
          if String.eqb (strip raw) "" then counted_ids strip id_field rows'
          else strip raw :: counted_ids strip id_field rows'
      | None => counted_ids strip id_field rows'
      end
  end.

(** [id_field in row]. *)
Definition has_id (id_field : string) (row : dict string) : bool :=
  match Dict.get id_field row with Some _ => true | None => false end.

(** The message of the [KeyError] of [accumulate_dataset]. *)
Definition missing_id_message (dataset_name id_field : string) : string :=
  String.append "Missing id field '"
    (String.append id_field
       (String.append "' in dataset '" (String.append dataset_name "'."))).

(** A row is a Python dict: no key occurs twice. *)
Definition well_formed_rows (rows : list (dict string)) : Prop :=
  Forall (fun row => NoDup (Dict.keys row)) rows.

(** * Properties *)

(** ** Integers and [bind] *)

Lemma wrap8_small z : -128 <= z <= 127 -> Int.wrap8 z = z.
Proof.
  intros H. unfold Int.wrap8, Int.wrap. simpl.
  rewrite Z.mod_small; lia.
Qed.

Lemma wrap64_small z : - 2 ^ 63 <= z < 2 ^ 63 -> Int.wrap64 z = z.
Proof.
  intros H. unfold Int.wrap64, Int.wrap.
  change (2 ^ (64 - 1)) with (2 ^ 63).
  change (2 ^ 64) with (2 * 2 ^ 63).
  rewrite Z.mod_small; lia.
Qed.

Lemma bipolar_cons x v :
  bipolar (x :: v) <-> (x = -1 \/ x = 1) /\ bipolar v.
Proof.
  unfold bipolar. split.
  - intros H. inversion H; subst. auto.
  - intros [H1 H2]. constructor; assumption.
Qed.

Lemma bipolarb_spec v : bipolarb v = true <-> bipolar v.
Proof.
  unfold bipolarb, bipolar. rewrite forallb_forall, Forall_forall.
  split; intros H x Hx; specialize (H x Hx).
  - apply orb_true_iff in H. rewrite !Z.eqb_eq in H. exact H.
  - apply orb_true_iff. rewrite !Z.eqb_eq. exact H.
Qed.

Lemma multiply_same_length a b :
  length a = length b -> Np.multiply a b = OK (Np.zip_with Int.mul8 a b).
Proof.
  intros H. unfold Np.multiply. rewrite H, Nat.eqb_refl. reflexivity.
Qed.

Lemma bind_same_length a b :
  length a = length b ->
  bind a b = OK (Np.astype_int8 (Np.zip_with Int.mul8 a b)).
Proof.
  intros H. unfold bind. rewrite (multiply_same_length a b H). reflexivity.
Qed.

Lemma zip_with_length {A B C} (f : A -> B -> C) l1 l2 :
  length l1 = length l2 -> length (Np.zip_with f l1 l2) = length l1.
Proof.
  revert l2. induction l1 as [|x l1 IH]; intros [|y l2] H; simpl in *;
    try discriminate; auto.
Qed.

Lemma mul8_bipolar x y :
  (x = -1 \/ x = 1) -> (y = -1 \/ y = 1) ->
  Int.wrap8 (Int.mul8 x y) = x * y /\ (x * y = -1 \/ x * y = 1).
Proof.
  intros [-> | ->] [-> | ->]; vm_compute; auto.
Qed.

(** The binding of two bipolar vectors of one length is their element-wise
    product, and it is bipolar again. *)
Lemma bind_bipolar_product a b :
  bipolar a -> bipolar b -> length a = length b ->
  Np.astype_int8 (Np.zip_with Int.mul8 a b) = Np.zip_with Z.mul a b
  /\ bipolar (Np.zip_with Z.mul a b).
Proof.
  revert b. induction a as [|x a IH]; intros [|y b] Ha Hb Hlen;
    simpl in *; try discriminate.
  - split; [reflexivity | constructor].
  - apply bipolar_cons in Ha. apply bipolar_cons in Hb.
    destruct Ha as [Hx Ha], Hb as [Hy Hb].
    destruct (IH b Ha Hb) as [IH1 IH2]; [lia |].
    destruct (mul8_bipolar x y Hx Hy) as [E1 E2].
    unfold Np.astype_int8 in *. rewrite IH1, E1.
    split; [reflexivity | apply bipolar_cons; auto].
Qed.

Lemma zip_mul_cancel a b :
  bipolar b -> length a = length b ->
  Np.zip_with Z.mul (Np.zip_with Z.mul a b) b = a.
Proof.
  revert b. induction a as [|x a IH]; intros [|y b] Hb Hlen;
    simpl in *; try discriminate; [reflexivity |].
  apply bipolar_cons in Hb. destruct Hb as [Hy Hb].
  rewrite IH by (auto; lia).
  f_equal. destruct Hy as [-> | ->]; lia.
Qed.

(** C1: [bind] is self-inverse.  For bipolar vectors [a] and [b] of equal
    length, [bind(a, b)] returns a vector [c], and [bind(c, b)] returns
    [a]. *)
Theorem bind_self_inverse (a b : ndarray) :
  bipolar a -> bipolar b -> length a = length b ->
  exists c, bind a b = OK c /\ bind c b = OK a.
Proof.
  intros Ha Hb Hlen.
  destruct (bind_bipolar_product a b Ha Hb Hlen) as [E Hc].
  exists (Np.zip_with Z.mul a b). split.
  - rewrite bind_same_length by assumption. rewrite E. reflexivity.
  - assert (Hlen' : length (Np.zip_with Z.mul a b) = length b)
      by (rewrite zip_with_length; assumption).
    rewrite bind_same_length by assumption.
    destruct (bind_bipolar_product _ b Hc Hb Hlen') as [E' _].
    rewrite E', zip_mul_cancel by assumption. reflexivity.
Qed.

Lemma bind_self_inverse_witness :
  exists c, bind [1; -1; -1; 1] [-1; -1; 1; 1] = OK c
            /\ bind c [-1; -1; 1; 1] = OK [1; -1; -1; 1].
Proof.
  apply bind_self_inverse.
  - apply bipolarb_spec. reflexivity.
  - apply bipolarb_spec. reflexivity.
  - reflexivity.
Defined.

(** ** [bundle] *)

Lemma nth_zip_with {A B C} (f : A -> B -> C) l1 l2 i d1 d2 d :
  (i < length l1)%nat -> length l1 = length l2 ->
  nth i (Np.zip_with f l1 l2) d = f (nth i l1 d1) (nth i l2 d2).
Proof.
  revert l2 i. induction l1 as [|x l1 IH]; intros [|y l2] [|i] Hi Hlen;
    simpl in *; try discriminate; try lia; auto.
  apply IH; lia.
Qed.

Lemma bipolar_nth v i :
  bipolar v -> (i < length v)%nat -> nth i v 0 = -1 \/ nth i v 0 = 1.
Proof.
  intros Hv Hi. unfold bipolar in Hv. rewrite Forall_forall in Hv.
  apply Hv. apply nth_In. exact Hi.
Qed.

(** Adding up bipolar rows in [int64] never wraps while the number of rows
    stays below [2^63]: each column of the accumulator is the exact sum. *)
Lemma fold_add64_nth rest : forall acc i B,
  Forall bipolar rest ->
  Forall (fun r => length r = length acc) rest ->
  (i < length acc)%nat ->
  Z.abs (nth i acc 0) <= B ->
  B + Z.of_nat (length rest) < 2 ^ 63 ->
  length (fold_left (Np.zip_with Int.add64) rest acc) = length acc
  /\ nth i (fold_left (Np.zip_with Int.add64) rest acc) 0
     = nth i acc 0 + column_sum i rest.
Proof.
  induction rest as [|r rest IH]; intros acc i B Hb Hl Hi Hacc HB; simpl.
  - unfold column_sum. simpl. split; [reflexivity | lia].
  - inversion Hb as [|? ? Hr Hb']; subst.
    inversion Hl as [|? ? Hlr Hl']; subst.
    simpl length in HB. rewrite Nat2Z.inj_succ in HB.
    assert (Hlen : length (Np.zip_with Int.add64 acc r) = length acc)
      by (apply zip_with_length; symmetry; exact Hlr).
    assert (Hri : nth i r 0 = -1 \/ nth i r 0 = 1)
      by (apply bipolar_nth; [exact Hr | rewrite Hlr; exact Hi]).
    assert (Hstep : nth i (Np.zip_with Int.add64 acc r) 0 = nth i acc 0 + nth i r 0).
    { rewrite (nth_zip_with Int.add64 acc r i 0 0 0) by (auto; lia).
      unfold Int.add64. apply wrap64_small. lia. }
    destruct (IH (Np.zip_with Int.add64 acc r) i (B + 1)) as [IH1 IH2].
    + exact Hb'.
    + rewrite Hlen. exact Hl'.
    + rewrite Hlen. exact Hi.
    + rewrite Hstep. lia.
    + lia.
    + split; [rewrite IH1; exact Hlen |].
      rewrite IH2, Hstep. unfold column_sum. simpl. lia.
Qed.

Lemma forallb_same_length (first : ndarray) (rest : list ndarray) :
  forallb (fun r => (length r =? length first)%nat) rest = true
  <-> Forall (fun r => length r = length first) rest.
Proof.
  rewrite forallb_forall, Forall_forall.
  split; intros H r Hr; specialize (H r Hr); apply Nat.eqb_eq; exact H.
Qed.

Lemma astype_where_nth summed i :
  (i < length summed)%nat ->
  nth i (Np.astype_int8 (Np.where_nonneg summed)) 0 = sign_nonneg (nth i summed 0).
Proof.
  revert i. induction summed as [|s summed IH]; intros [|i] Hi; simpl in *;
    try lia.
  - unfold sign_nonneg. destruct (0 <=? s); reflexivity.
  - apply IH. lia.
Qed.

Lemma bundle_cancel v :
  bipolar v ->
  Np.astype_int8 (Np.where_nonneg
    (Np.zip_with Int.add64 (map Int.wrap64 v) (negate v))) = repeat 1 (length v).
Proof.
  induction v as [|x v IH]; intros Hv; simpl; [reflexivity |].
  apply bipolar_cons in Hv. destruct Hv as [Hx Hv].
  unfold Np.astype_int8, Np.where_nonneg, negate in *.
  rewrite IH by exact Hv.
  f_equal. destruct Hx as [-> | ->]; reflexivity.
Qed.

(** C2: for a non-empty collection [first :: rest] of bipolar vectors of one
    length, [bundle] returns a vector of that length whose [i]-th component
    is +1 when the sum of the [i]-th components is >= 0 (a zero sum
    included) and -1 otherwise; [bundle [v; -v]] is the all-+1 vector; and
    [bundle] of the empty collection fails with [EmptyInput]. *)
Theorem bundle_majority_vote :
  (forall first rest,
      bipolar first -> Forall bipolar rest ->
      Forall (fun r => length r = length first) rest ->
      Z.of_nat (length rest) < 2 ^ 63 - 1 ->
      exists out,
        bundle (first :: rest) = OK out
        /\ length out = length first
        /\ forall i, (i < length first)%nat ->
             nth i out 0 = sign_nonneg (column_sum i (first :: rest)))
  /\ (forall v, bipolar v -> bundle [v; negate v] = OK (repeat 1 (length v)))
  /\ bundle [] = Error EmptyInput.
Proof.
  split; [| split].
  - intros first rest Hf Hr Hlen Hn.
    unfold bundle, Np.sum_axis0.
    destruct (forallb_same_length first rest) as [_ Hfb].
    rewrite (Hfb Hlen). simpl.
    eexists. split; [reflexivity |].
    assert (Hacc : Forall (fun r => length r = length (map Int.wrap64 first)) rest)
      by (rewrite length_map; exact Hlen).
    split.
    + unfold Np.astype_int8, Np.where_nonneg. rewrite !length_map.
      destruct first as [|x first'].
      * clear -Hacc. simpl in *.
        assert (forall acc, acc = [] ->
                  length (fold_left (Np.zip_with Int.add64) rest acc) = 0%nat) as H.
        { clear. induction rest as [|r rest IH]; intros acc ->; simpl; auto. }
        apply H. reflexivity.
      * destruct (fold_add64_nth rest (map Int.wrap64 (x :: first')) 0%nat 1) as [E _];
          auto.
        -- simpl. lia.
        -- apply bipolar_cons in Hf. destruct Hf as [[-> | ->] _]; simpl; vm_compute; discriminate.
        -- lia.
        -- rewrite E, length_map. reflexivity.
    + intros i Hi.
      assert (Hfi : nth i first 0 = -1 \/ nth i first 0 = 1)
        by (apply bipolar_nth; assumption).
      assert (Hw : nth i (map Int.wrap64 first) 0 = nth i first 0).
      { change 0 with (Int.wrap64 0) at 1. rewrite map_nth.
        destruct Hfi as [-> | ->]; reflexivity. }
      destruct (fold_add64_nth rest (map Int.wrap64 first) i 1) as [E1 E2]; auto.
      * rewrite length_map. exact Hi.
      * rewrite Hw. lia.
      * lia.
      * rewrite astype_where_nth by (rewrite E1, length_map; exact Hi).
        rewrite E2, Hw. unfold column_sum. simpl. reflexivity.
  - intros v Hv. unfold bundle, Np.sum_axis0. simpl.
    unfold negate at 1. rewrite length_map, Nat.eqb_refl. simpl.
    rewrite bundle_cancel by exact Hv. reflexivity.
  - reflexivity.
Qed.

Lemma bundle_majority_vote_witness :
  exists out,
    bundle [[1; -1; 1]; [1; 1; -1]; [-1; -1; -1]] = OK out
    /\ length out = 3%nat
    /\ forall i, (i < 3)%nat ->
         nth i out 0
         = sign_nonneg (column_sum i [[1; -1; 1]; [1; 1; -1]; [-1; -1; -1]]).
Proof.
  apply (proj1 bundle_majority_vote).
  - apply bipolarb_spec. reflexivity.
  - repeat constructor; apply bipolarb_spec; reflexivity.
  - repeat constructor.
  - reflexivity.
Defined.

(** ** Mismatched lengths *)

Lemma dot_length_mismatch a b :
  length a <> length b -> Np.dot a b = Error DimensionMismatch.
Proof.
  intros H. unfold Np.dot.
  apply Nat.eqb_neq in H. rewrite H. reflexivity.
Qed.

Lemma multiply_length_mismatch a b :
  length a <> length b -> length a <> 1%nat -> length b <> 1%nat ->
  Np.multiply a b = Error DimensionMismatch.
Proof.
  intros H Ha Hb. unfold Np.multiply.
  apply Nat.eqb_neq in H. rewrite H.
  destruct a as [|x [|x' a]]; destruct b as [|y [|y' b]]; simpl in *;
    try reflexivity; congruence.
Qed.

Lemma sum_axis0_length_mismatch first rest r :
  In r rest -> length r <> length first ->
  Np.sum_axis0 first rest = Error DimensionMismatch.
Proof.
  intros Hin Hlen. unfold Np.sum_axis0.
  destruct (forallb _ rest) eqn:E; [| reflexivity].
  rewrite forallb_forall in E. specialize (E r Hin).
  apply Nat.eqb_eq in E. contradiction.
Qed.

(** C4, as the code has it: for vectors [a] and [b] of differing lengths,
    [cosine_similarity a b] fails with [DimensionMismatch]; [bind a b] fails
    with [DimensionMismatch] when neither length is 1; and [bundle] of any
    collection that contains both [a] and [b] fails with
    [DimensionMismatch]. *)
Theorem length_mismatch_rejected (a b : ndarray) :
  length a <> length b ->
  cosine_similarity a b = Error DimensionMismatch
  /\ (length a <> 1%nat -> length b <> 1%nat ->
      bind a b = Error DimensionMismatch)
  /\ (forall vectors, In a vectors -> In b vectors ->
      bundle vectors = Error DimensionMismatch).
Proof.
  intros Hlen. split; [| split].
  - unfold cosine_similarity. rewrite dot_length_mismatch by exact Hlen.
    reflexivity.
  - intros Ha Hb. unfold bind.
    rewrite multiply_length_mismatch by assumption. reflexivity.
  - intros vectors Ha Hb.
    destruct vectors as [|first rest]; [contradiction |].
    unfold bundle.
    assert (exists r, In r rest /\ length r <> length first) as (r & Hr & Hrl).
    { destruct (Nat.eq_dec (length a) (length first)) as [Ea | Na].
      - exists b. destruct Hb as [<- | Hb]; [congruence |].
        split; [exact Hb | congruence].
      - exists a. destruct Ha as [<- | Ha]; [congruence |].
        split; [exact Ha | exact Na]. }
    rewrite (sum_axis0_length_mismatch first rest r Hr Hrl). reflexivity.
Qed.

Lemma length_mismatch_rejected_witness :
  cosine_similarity [1; -1] [1; -1; 1] = Error DimensionMismatch
  /\ (length [1; -1] <> 1%nat -> length [1; -1; 1] <> 1%nat ->
      bind [1; -1] [1; -1; 1] = Error DimensionMismatch)
  /\ (forall vectors, In [1; -1] vectors -> In [1; -1; 1] vectors ->
      bundle vectors = Error DimensionMismatch).
Proof.
  apply (length_mismatch_rejected [1; -1] [1; -1; 1]).
  simpl. lia.
Defined.

(** Counterexample to C4 as stated: [bind] broadcasts a length-1 operand
    over the other operand instead of refusing it. *)
Lemma bind_broadcasts_length_one :
  length [-1] <> length [1; -1; 1]
  /\ bind [-1] [1; -1; 1] = OK [-1; 1; -1].
Proof.
  split; [simpl; lia | reflexivity].
Qed.

(** ** Random generation *)

Section GeneratorFacts.

Context {py_rng np_rng : Type} {G : Generators py_rng np_rng}.

Lemma draw_indices_length n : forall s : np_rng,
  length (fst (draw_indices n s)) = n.
Proof.
  induction n as [|n IH]; intros s; simpl; [reflexivity |].
  destruct (randint_0_2 s) as [i s1].
  specialize (IH s1). destruct (draw_indices n s1) as [l s2].
  simpl in *. congruence.
Qed.

Lemma population_lookup_bipolar (idx : list bool) :
  bipolar (map (fun i : bool => nth (if i then 1%nat else 0%nat) [-1; 1] 0) idx).
Proof.
  induction idx as [|i idx IH]; simpl; [constructor |].
  apply bipolar_cons. split; [| exact IH].
  destruct i; simpl; auto.
Qed.

Lemma astype_int8_bipolar v : bipolar v -> Np.astype_int8 v = v.
Proof.
  unfold Np.astype_int8.
  induction v as [|x v IH]; intros Hv; simpl; [reflexivity |].
  apply bipolar_cons in Hv. destruct Hv as [Hx Hv].
  rewrite IH by exact Hv.
  f_equal. destruct Hx as [-> | ->]; reflexivity.
Qed.

Lemma random_hypervector_nonneg (dimension : Z) (w : world py_rng np_rng) :
  0 <= dimension ->
  exists v w',
    random_hypervector dimension w = (OK v, w')
    /\ Z.of_nat (length v) = dimension
    /\ bipolar v.
Proof.
  intros Hd. unfold random_hypervector, choice.
  destruct (Z.ltb_spec dimension 0) as [Hneg | _]; [lia |].
  pose proof (draw_indices_length (Z.to_nat dimension) (np_state w)) as Hlen.
  destruct (draw_indices (Z.to_nat dimension) (np_state w)) as [idx s'].
  simpl in Hlen.
  rewrite astype_int8_bipolar by apply population_lookup_bipolar.
  eexists. eexists. split; [reflexivity |]. split.
  - rewrite length_map, Hlen. lia.
  - apply population_lookup_bipolar.
Qed.

Lemma random_hypervector_negative (dimension : Z) (w : world py_rng np_rng) :
  dimension < 0 ->
  random_hypervector dimension w = (Error InvalidArgument, w).
Proof.
  intros Hd. unfold random_hypervector, choice.
  destruct (Z.ltb_spec dimension 0) as [_ | Hpos]; [reflexivity | lia].
Qed.

End GeneratorFacts.

(** C7: for a positive dimension [D], [random_hypervector D] returns a
    vector of length exactly [D] whose components are all -1 or +1. *)
Theorem random_hypervector_bipolar
    {py_rng np_rng : Type} {G : Generators py_rng np_rng}
    (D : Z) (w : world py_rng np_rng) :
  0 < D ->
  exists v w',
    random_hypervector D w = (OK v, w')
    /\ Z.of_nat (length v) = D
    /\ bipolar v.
Proof.
  intros HD. apply random_hypervector_nonneg. lia.
Qed.

Lemma random_hypervector_bipolar_witness :
  exists v w',
    random_hypervector 5 {| py_state := 42; np_state := 42 |} = (OK v, w')
    /\ Z.of_nat (length v) = 5
    /\ bipolar v.
Proof.
  apply (@random_hypervector_bipolar Z Z lcg). lia.
Defined.

(** C9: generation is determined by the seed.  Two runs that begin with
    [set_seed seed] and issue the same sequence of [random_hypervector] calls
    have the same outcome at every call, whatever the random state of
    either process was before. *)
Theorem seeded_run_deterministic
    {py_rng np_rng : Type} {G : Generators py_rng np_rng}
    (seed : Z) (dims : list Z) (w1 w2 : world py_rng np_rng) :
  seeded_run seed dims w1 = seeded_run seed dims w2.
Proof.
  unfold seeded_run, set_seed.
  destruct ((0 <=? seed) && (seed <? 2 ^ 32)); reflexivity.
Qed.

(** C5, as the code has it: [random_hypervector] fails with
    [InvalidArgument] for a negative dimension and returns the empty vector
    for dimension 0; [cosine_similarity] of two empty vectors returns NaN,
    and with exactly one empty input it fails with [DimensionMismatch]. *)
Theorem invalid_arguments
    {py_rng np_rng : Type} {G : Generators py_rng np_rng}
    (w : world py_rng np_rng) :
  (forall dimension, dimension < 0 ->
     random_hypervector dimension w = (Error InvalidArgument, w))
  /\ random_hypervector 0 w = (OK [], w)
  /\ cosine_similarity [] [] = OK PrimFloat.nan
  /\ (forall a, a <> [] ->
        cosine_similarity a [] = Error DimensionMismatch
        /\ cosine_similarity [] a = Error DimensionMismatch).
Proof.
  split; [| split; [| split]].
  - intros dimension Hd. apply random_hypervector_negative. exact Hd.
  - destruct w. reflexivity.
  - reflexivity.
  - intros a Ha.
    assert (length a <> 0%nat) by (destruct a; simpl; congruence).
    unfold cosine_similarity.
    split; rewrite dot_length_mismatch by (simpl; congruence); reflexivity.
Qed.

Lemma invalid_arguments_witness :
  random_hypervector (-3) {| py_state := 42; np_state := 42 |}
  = (Error InvalidArgument, {| py_state := 42; np_state := 42 |})
  /\ cosine_similarity [1; -1] [] = Error DimensionMismatch.
Proof.
  pose proof (@invalid_arguments Z Z lcg {| py_state := 42; np_state := 42 |})
    as (Hneg & _ & _ & Hone).
  split.
  - apply Hneg. lia.
  - apply Hone. discriminate.
Defined.

(** Counterexample to C5 as stated: dimension 0 is not positive, yet the
    call returns (the empty vector); and two vectors of length 0 are given a
    similarity (NaN) instead of a failure. *)
Lemma zero_dimension_accepted :
  random_hypervector 0 {| py_state := 42; np_state := 42 |}
  = (OK [], {| py_state := 42; np_state := 42 |})
  /\ cosine_similarity [] [] = OK PrimFloat.nan.
Proof.
  split; reflexivity.
Qed.

(** ** Order of the floats *)

Ltac cmp_cases :=
  repeat match goal with
  | |- context [Pos.compare_cont Eq ?a ?b] =>
      change (Pos.compare_cont Eq a b) with (Pos.compare a b)
  | H : context [Pos.compare_cont Eq ?a ?b] |- _ =>
      change (Pos.compare_cont Eq a b) with (Pos.compare a b) in H
  end;
  repeat match goal with
  | |- context [Z.compare ?a ?b] => destruct (Z.compare_spec a b)
  | H : context [Z.compare ?a ?b] |- _ => destruct (Z.compare_spec a b)
  | |- context [Pos.compare ?a ?b] => destruct (Pos.compare_spec a b)
  | H : context [Pos.compare ?a ?b] |- _ => destruct (Pos.compare_spec a b)
  end;
  simpl in *; try reflexivity; try discriminate; try lia.

Lemma SFleb_trans x y z :
  SFleb x y = true -> SFleb y z = true -> SFleb x z = true.
Proof.
  unfold SFleb.
  destruct x as [[|]|[|]| |[|] mx ex], y as [[|]|[|]| |[|] my ey],
           z as [[|]|[|]| |[|] mz ez]; simpl;
    try reflexivity; try discriminate; intros H1 H2; cmp_cases.
Qed.

Lemma SFltb_false_leb x y :
  x <> S754_nan -> y <> S754_nan -> SFltb x y = false -> SFleb y x = true.
Proof.
  unfold SFleb, SFltb.
  destruct x as [[|]|[|]| |[|] mx ex], y as [[|]|[|]| |[|] my ey]; simpl;
    try reflexivity; try discriminate; try congruence; intros _ _ H; cmp_cases.
Qed.

Lemma SFeqb_not_ltb x y s :
  SFeqb x s = true -> SFeqb y s = true -> SFltb x y = false.
Proof.
  unfold SFeqb, SFltb.
  destruct x as [[|]|[|]| |[|] mx ex], y as [[|]|[|]| |[|] my ey],
           s as [[|]|[|]| |[|] ms es]; simpl;
    try reflexivity; try discriminate; intros H1 H2; cmp_cases.
Qed.

Lemma is_nan_false x : PrimFloat.is_nan x = false -> Prim2SF x <> S754_nan.
Proof.
  unfold PrimFloat.is_nan. rewrite FloatAxioms.eqb_spec. intros H E. rewrite E in H.
  discriminate.
Qed.

Lemma float_leb_trans (a b c : float) :
  (a <=? b)%float = true -> (b <=? c)%float = true -> (a <=? c)%float = true.
Proof. rewrite !FloatAxioms.leb_spec. apply SFleb_trans. Qed.

Lemma float_ltb_false_leb (a b : float) :
  PrimFloat.is_nan a = false -> PrimFloat.is_nan b = false ->
  (a <? b)%float = false -> (b <=? a)%float = true.
Proof.
  intros Ha Hb. rewrite FloatAxioms.ltb_spec, FloatAxioms.leb_spec.
  apply SFltb_false_leb; apply is_nan_false; assumption.
Qed.

Lemma float_ltb_leb (a b : float) :
  (a <? b)%float = true -> (a <=? b)%float = true.
Proof.
  rewrite FloatAxioms.ltb_spec, FloatAxioms.leb_spec. unfold SFleb, SFltb.
  destruct (SFcompare _ _) as [[| |]|]; congruence.
Qed.

Lemma SFleb_not_ltb x y : SFleb x y = true -> SFltb y x = false.
Proof.
  unfold SFleb, SFltb.
  destruct x as [[|]|[|]| |[|] mx ex], y as [[|]|[|]| |[|] my ey]; simpl;
    try reflexivity; try discriminate; intros H; cmp_cases.
Qed.

Lemma SFltb_leb_trans x y z :
  SFltb x y = true -> SFleb y z = true -> SFltb x z = true.
Proof.
  unfold SFleb, SFltb.
  destruct x as [[|]|[|]| |[|] mx ex], y as [[|]|[|]| |[|] my ey],
           z as [[|]|[|]| |[|] mz ez]; simpl;
    try reflexivity; try discriminate; intros H1 H2; cmp_cases.
Qed.

Lemma float_leb_not_ltb (a b : float) :
  (a <=? b)%float = true -> (b <? a)%float = false.
Proof. rewrite FloatAxioms.leb_spec, FloatAxioms.ltb_spec. apply SFleb_not_ltb. Qed.

Lemma float_ltb_leb_trans (a b c : float) :
  (a <? b)%float = true -> (b <=? c)%float = true -> (a <? c)%float = true.
Proof.
  rewrite !FloatAxioms.ltb_spec, FloatAxioms.leb_spec. apply SFltb_leb_trans.
Qed.

Lemma float_eqb_not_ltb (a b s : float) :
  (a =? s)%float = true -> (b =? s)%float = true -> (a <? b)%float = false.
Proof. rewrite !FloatAxioms.eqb_spec, FloatAxioms.ltb_spec. apply SFeqb_not_ltb. Qed.

(** ** Floats that are not NaN *)

(** The number of binary digits of a mantissa. *)
Lemma digits2_pos_bounds p :
  2 ^ (Zpos (digits2_pos p) - 1) <= Zpos p < 2 ^ Zpos (digits2_pos p).
Proof.
  induction p as [p IH|p IH|]; simpl digits2_pos.
  - rewrite Pos2Z.inj_succ, Z.pow_succ_r by lia.
    replace (Z.succ (Zpos (digits2_pos p)) - 1)
      with (Z.succ (Zpos (digits2_pos p) - 1)) by lia.
    rewrite Z.pow_succ_r by lia. lia.
  - rewrite Pos2Z.inj_succ, Z.pow_succ_r by lia.
    replace (Z.succ (Zpos (digits2_pos p)) - 1)
      with (Z.succ (Zpos (digits2_pos p) - 1)) by lia.
    rewrite Z.pow_succ_r by lia. lia.
  - simpl. lia.
Qed.

Lemma digits_lower m : 0 < m -> 2 ^ (Zdigits2 m - 1) <= m.
Proof.
  destruct m as [|p|p]; try lia. intros _. apply digits2_pos_bounds.
Qed.

Lemma digits_upper m : 0 <= m -> m < 2 ^ Zdigits2 m.
Proof.
  destruct m as [|p|p]; try lia; intros _.
  - simpl. lia.
  - apply digits2_pos_bounds.
Qed.

Lemma digits_ge m k : 0 <= k -> 2 ^ k <= m -> k + 1 <= Zdigits2 m.
Proof.
  intros Hk H.
  assert (0 < m) by (pose proof (Z.pow_pos_nonneg 2 k); lia).
  pose proof (digits_upper m ltac:(lia)) as Hu.
  assert (2 ^ k < 2 ^ Zdigits2 m) as Hlt by lia.
  apply Z.pow_lt_mono_r_iff in Hlt; try lia.
  destruct m; simpl; lia.
Qed.

Lemma digits_pos m : 0 < m -> 1 <= Zdigits2 m.
Proof. destruct m; simpl; lia. Qed.

Lemma digits_mono m n : 0 < m -> m <= n -> Zdigits2 m <= Zdigits2 n.
Proof.
  intros Hm Hmn.
  pose proof (digits_lower m Hm). pose proof (digits_pos m Hm).
  pose proof (digits_ge n (Zdigits2 m - 1)). lia.
Qed.

(** Shifting a mantissa right. *)
Lemma shr_1_nonneg mrs : 0 <= shr_m mrs -> 0 <= shr_m (shr_1 mrs).
Proof.
  destruct mrs as [m r s]. simpl.
  destruct m as [|[p|p|]|p]; simpl; lia.
Qed.

Lemma iter_shr_1_nonneg p : forall mrs,
  0 <= shr_m mrs -> 0 <= shr_m (iter_pos shr_1 p mrs).
Proof.
  induction p as [p IH|p IH|]; intros mrs H; simpl.
  - apply IH, IH, shr_1_nonneg, H.
  - apply IH, IH, H.
  - apply shr_1_nonneg, H.
Qed.

Lemma shr_1_div2 mrs : 0 <= shr_m mrs -> shr_m (shr_1 mrs) = shr_m mrs / 2.
Proof.
  destruct mrs as [m r s]. simpl. intros H. rewrite <- Z.div2_div.
  destruct m as [|[p|p|]|p]; try reflexivity; lia.
Qed.

Lemma iter_shr_1_div p : forall mrs,
  0 <= shr_m mrs ->
  shr_m (iter_pos shr_1 p mrs) = shr_m mrs / 2 ^ Zpos p.
Proof.
  induction p as [p IH|p IH|]; intros mrs H; simpl iter_pos.
  - pose proof (shr_1_nonneg mrs H) as H1.
    pose proof (iter_shr_1_nonneg p _ H1) as H2.
    rewrite IH by exact H2. rewrite IH by exact H1. rewrite shr_1_div2 by exact H.
    rewrite !Z.div_div by (try apply Z.pow_pos_nonneg; lia).
    f_equal. rewrite Pos2Z.inj_xI.
    rewrite <- Z.pow_add_r, <- Z.pow_succ_r by lia. f_equal. lia.
  - pose proof (iter_shr_1_nonneg p _ H) as H2.
    rewrite IH by exact H2. rewrite IH by exact H.
    rewrite !Z.div_div by (try apply Z.pow_pos_nonneg; lia).
    f_equal. rewrite Pos2Z.inj_xO.
    rewrite <- Z.pow_add_r by lia. f_equal. lia.
  - rewrite shr_1_div2 by exact H. reflexivity.
Qed.

(** Rounding a positive mantissa of a number that is at least 1 keeps the
    mantissa positive and the number at least 1. *)
Lemma shr_fexp_ge_one m e l :
  0 < m -> 1 <= Zdigits2 m + e ->
  0 < shr_m (fst (shr_fexp prec emax m e l))
  /\ Zdigits2 m + e
     <= Zdigits2 (shr_m (fst (shr_fexp prec emax m e l)))
        + snd (shr_fexp prec emax m e l).
Proof.
  intros Hm Hd. unfold shr_fexp, shr.
  assert (H0 : shr_m (shr_record_of_loc m l) = m)
    by (destruct l as [|[| |]]; reflexivity).
  set (n := fexp prec emax (Zdigits2 m + e) - e).
  assert (Hn : n <= Zdigits2 m - 1).
  { subst n. unfold fexp, SpecFloat.emin, prec, emax. lia. }
  destruct n as [|p|p] eqn:En; simpl fst; simpl snd; rewrite ?H0; try lia.
  rewrite iter_shr_1_div by lia. rewrite H0.
  pose proof (digits_lower m Hm) as Hl.
  assert (Hq : 2 ^ (Zdigits2 m - 1 - Zpos p) <= m / 2 ^ Zpos p).
  { apply Z.div_le_lower_bound; [apply Z.pow_pos_nonneg; lia |].
    rewrite <- Z.pow_add_r by lia.
    replace (Zpos p + (Zdigits2 m - 1 - Zpos p)) with (Zdigits2 m - 1) by lia.
    exact Hl. }
  split.
  - pose proof (Z.pow_pos_nonneg 2 (Zdigits2 m - 1 - Zpos p)). lia.
  - pose proof (digits_ge (m / 2 ^ Zpos p) (Zdigits2 m - 1 - Zpos p)). lia.
Qed.

Lemma binary_round_aux_ge_one m e l :
  0 < m -> 1 <= Zdigits2 m + e ->
  ge_one (binary_round_aux prec emax false m e l).
Proof.
  intros Hm Hd. unfold binary_round_aux.
  destruct (shr_fexp_ge_one m e l Hm Hd) as [H1 H2].
  destruct (shr_fexp prec emax m e l) as [mrs' e']. simpl in H1, H2.
  set (m2 := round_nearest_even (shr_m mrs') (loc_of_shr_record mrs')).
  assert (Hm2 : shr_m mrs' <= m2 <= shr_m mrs' + 1).
  { subst m2. unfold round_nearest_even.
    destruct (loc_of_shr_record mrs') as [|[| |]];
      try destruct (Z.even (shr_m mrs')); lia. }
  assert (Hd2 : Zdigits2 (shr_m mrs') <= Zdigits2 m2)
    by (apply digits_mono; lia).
  destruct (shr_fexp_ge_one m2 e' loc_Exact) as [H3 H4]; [lia | lia |].
  destruct (shr_fexp prec emax m2 e' loc_Exact) as [mrs'' e'']. simpl in H3, H4.
  destruct (shr_m mrs'') as [|p|p] eqn:E; try lia.
  destruct (e'' <=? emax - prec); simpl; [| exact I].
  simpl in H4. lia.
Qed.

Lemma SFmul_ge_one x y : ge_one x -> ge_one y -> ge_one (SF64mul x y).
Proof.
  destruct x as [[|]|[|]| |[|] mx ex], y as [[|]|[|]| |[|] my ey];
    unfold SF64mul; cbn [ge_one SFmul xorb]; try tauto.
  intros Hx Hy. apply binary_round_aux_ge_one; [lia |].
  pose proof (digits2_pos_bounds mx) as [Bx _].
  pose proof (digits2_pos_bounds my) as [By _].
  assert (H : 2 ^ (Zpos (digits2_pos mx) - 1 + (Zpos (digits2_pos my) - 1))
              <= Zpos (mx * my)).
  { rewrite Z.pow_add_r by lia. rewrite Pos2Z.inj_mul.
    apply Z.mul_le_mono_nonneg; try lia; apply Z.pow_nonneg; lia. }
  apply digits_ge in H; [| lia]. cbn [Zdigits2] in *. lia.
Qed.

Lemma SFsqrt_ge_one x : ge_one x -> ge_one (SF64sqrt x).
Proof.
  destruct x as [[|]|[|]| |[|] mx ex];
    unfold SF64sqrt; cbn [ge_one SFsqrt]; try tauto.
  intros Hx. unfold SFsqrt_core_binary.
  set (d := Zdigits2 (Zpos mx)).
  set (e' := Z.min (fexp prec emax (Z.div2 (d + ex + 1))) (Z.div2 ex)).
  set (s := ex - 2 * e').
  assert (Hd : 1 <= d + ex) by exact Hx.
  assert (Hs : 0 <= s).
  { assert (e' <= Z.div2 ex) by apply Z.le_min_r.
    assert (2 * Z.div2 ex <= ex)
      by (rewrite Z.div2_div; apply Z.mul_div_le; lia).
    subst s. lia. }
  set (m' := match s with Z0 => Zpos mx | Zpos _ => Z.shiftl (Zpos mx) s | Zneg _ => 0 end).
  assert (Hm' : m' = Zpos mx * 2 ^ s).
  { subst m'. destruct s as [|p|p] eqn:Es; try lia.
    apply Z.shiftl_mul_pow2. lia. }
  pose proof (Z.sqrtrem_sqrt m') as Hq.
  destruct (Z.sqrtrem m') as [q r]. simpl in Hq. subst q.
  pose proof (digits_lower (Zpos mx) ltac:(lia)) as Hl. fold d in Hl.
  assert (Hd1 : 1 <= d) by (apply digits_pos; lia).
  assert (Hm1 : 2 ^ (d - 1 + s) <= m').
  { rewrite Hm', Z.pow_add_r by lia.
    apply Z.mul_le_mono_nonneg_r; [apply Z.pow_nonneg; lia | exact Hl]. }
  assert (Hk : exists k, 0 <= k /\ 1 <= k + 1 + e' /\ 2 ^ k * 2 ^ k <= m').
  { destruct (Z.le_gt_cases 0 e') as [Hpos | Hneg].
    - exists 0. split; [lia |]. split; [lia |].
      pose proof (Z.pow_pos_nonneg 2 (d - 1 + s)). simpl. lia.
    - exists (- e'). split; [lia |]. split; [lia |].
      rewrite <- Z.pow_add_r by lia.
      apply Z.le_trans with (2 ^ (d - 1 + s)); [| exact Hm1].
      apply Z.pow_le_mono_r; subst s; lia. }
  destruct Hk as (k & Hk0 & Hk1 & Hk2).
  pose proof (Z.pow_pos_nonneg 2 k ltac:(lia) Hk0) as Hpk.
  assert (Hsq : 2 ^ k <= Z.sqrt m') by (apply Z.sqrt_le_square; nia).
  apply binary_round_aux_ge_one; [lia |].
  pose proof (digits_ge (Z.sqrt m') k Hk0 Hsq). lia.
Qed.

Lemma iter_xO_pow p d : Zpos (Pos.iter xO p d) = Zpos p * 2 ^ Zpos d.
Proof.
  induction d as [|d IH] using Pos.peano_ind.
  - simpl. lia.
  - rewrite Pos.iter_succ, Pos2Z.inj_xO, IH, Pos2Z.inj_succ, Z.pow_succ_r by lia.
    lia.
Qed.

Lemma binary_normalize_ge_one D :
  0 < D -> ge_one (binary_normalize prec emax D 0 false).
Proof.
  destruct D as [|p|p]; try lia. intros _.
  unfold binary_normalize, binary_round, shl_align.
  set (e' := fexp prec emax (Zpos (digits2_pos p) + 0)).
  pose proof (digits2_pos_bounds p) as [Bl _].
  destruct (e' - 0) as [|q|q] eqn:E.
  - apply binary_round_aux_ge_one; simpl; lia.
  - apply binary_round_aux_ge_one; simpl; lia.
  - apply binary_round_aux_ge_one; [lia |].
    assert (H : 2 ^ (Zpos (digits2_pos p) - 1 + Zpos q) <= Zpos (Pos.iter xO p q)).
    { rewrite iter_xO_pow, Z.pow_add_r by lia.
      apply Z.mul_le_mono_nonneg_r; [apply Z.pow_nonneg; lia | exact Bl]. }
    apply digits_ge in H; lia.
Qed.

Lemma of_uint63_ge_one D :
  1 <= D < 2 ^ 63 -> ge_one (Prim2SF (PrimFloat.of_uint63 (Uint63.of_Z D))).
Proof.
  intros HD. rewrite FloatAxioms.of_uint63_spec, Uint63.of_Z_spec.
  rewrite Z.mod_small by (change wB with (2 ^ 63); lia).
  apply binary_normalize_ge_one. lia.
Qed.

Lemma ge_one_not_zero (s : float) : ge_one (Prim2SF s) -> (s =? 0)%float = false.
Proof.
  rewrite FloatAxioms.eqb_spec.
  change (Prim2SF 0) with (S754_zero false).
  destruct (Prim2SF s) as [[|]|[|]| |[|] m e]; simpl; tauto.
Qed.

Lemma shr_fexp_nonneg prec emax m e l :
  0 <= m -> 0 <= shr_m (fst (shr_fexp prec emax m e l)).
Proof.
  intros H. unfold shr_fexp, shr.
  assert (H0 : 0 <= shr_m (shr_record_of_loc m l))
    by (destruct l as [|[| |]]; exact H).
  destruct (fexp prec emax (Zdigits2 m + e) - e); simpl; auto.
  apply iter_shr_1_nonneg, H0.
Qed.

Lemma round_nearest_even_nonneg m l : 0 <= m -> 0 <= round_nearest_even m l.
Proof.
  intros H. unfold round_nearest_even.
  destruct l as [|[| |]]; try destruct (Z.even m); lia.
Qed.

(** Rounding a mantissa that is not negative never gives NaN. *)
Lemma binary_round_aux_not_nan prec emax s m e l :
  0 <= m -> binary_round_aux prec emax s m e l <> S754_nan.
Proof.
  intros H. unfold binary_round_aux.
  pose proof (shr_fexp_nonneg prec emax m e l H) as H1.
  destruct (shr_fexp prec emax m e l) as [mrs' e']. simpl in H1.
  pose proof (shr_fexp_nonneg prec emax _ e' loc_Exact
                (round_nearest_even_nonneg _ (loc_of_shr_record mrs') H1)) as H2.
  destruct (shr_fexp prec emax _ e' loc_Exact) as [mrs'' e'']. simpl in H2.
  destruct (shr_m mrs'') as [|p|p]; try discriminate; [| lia].
  destruct (e'' <=? emax - prec); discriminate.
Qed.

Lemma SFdiv_core_nonneg prec emax mx ex my ey :
  0 <= fst (fst (SFdiv_core_binary prec emax (Zpos mx) ex (Zpos my) ey)).
Proof.
  unfold SFdiv_core_binary.
  set (s := _ - _ - Z.min _ _).
  set (m' := match s with Z0 => _ | Zpos _ => _ | Zneg _ => _ end).
  assert (Hm : 0 <= m').
  { subst m'. destruct s; try lia. apply Z.shiftl_nonneg. lia. }
  assert (Hq : 0 <= m' / Zpos my) by (apply Z.div_pos; lia).
  unfold Z.div in Hq. destruct (Z.div_eucl m' (Zpos my)) as [q r].
  simpl in *. exact Hq.
Qed.

(** A finite float divided by a float that is at least 1 is not NaN. *)
Lemma SFdiv_ge_one_not_nan x y :
  ge_one y -> (forall s, x <> S754_infinity s) -> x <> S754_nan ->
  SF64div x y <> S754_nan.
Proof.
  intros Hy Hinf Hnan. unfold SF64div, SFdiv.
  destruct y as [[|]|[|]| |[|] my ey]; cbn [ge_one] in Hy; try tauto;
    destruct x as [sx|sx| |sx mx ex]; try discriminate; try congruence;
    try (exfalso; apply (Hinf sx); reflexivity).
  pose proof (SFdiv_core_nonneg prec emax mx ex my ey) as H.
  destruct (SFdiv_core_binary prec emax (Zpos mx) ex (Zpos my) ey) as [[mz ez] lz].
  apply binary_round_aux_not_nan. exact H.
Qed.

Lemma div_not_nan (x y : float) :
  finite_class (classify x) = true -> ge_one (Prim2SF y) ->
  PrimFloat.is_nan (x / y) = false.
Proof.
  rewrite FloatAxioms.classify_spec. intros Hx Hy.
  destruct (PrimFloat.is_nan (x / y)) eqn:E; [| reflexivity].
  exfalso.
  assert (Prim2SF (x / y) = S754_nan) as Hn by (unfold Prim2SF; rewrite E; reflexivity).
  rewrite FloatAxioms.div_spec in Hn. revert Hn.
  apply SFdiv_ge_one_not_nan.
  - exact Hy.
  - intros s Es. rewrite Es in Hx. destruct s; discriminate.
  - intros Es. rewrite Es in Hx. discriminate.
Qed.

Lemma wrap8_range z : -128 <= Int.wrap8 z <= 127.
Proof.
  unfold Int.wrap8, Int.wrap.
  change (2 ^ (8 - 1)) with 128. change (2 ^ 8) with 256.
  pose proof (Z.mod_pos_bound (z + 128) 256). lia.
Qed.

Lemma int8_floats_checked :
  forallb (fun n => finite_class (classify (Float.of_Z (Z.of_nat n - 128))))
          (seq 0 256) = true.
Proof. vm_compute. reflexivity. Qed.

Lemma int8_float_finite z :
  -128 <= z <= 127 -> finite_class (classify (Float.of_Z z)) = true.
Proof.
  intros Hz. pose proof int8_floats_checked as H.
  rewrite forallb_forall in H.
  specialize (H (Z.to_nat (z + 128))).
  rewrite Z2Nat.id in H by lia.
  replace (z + 128 - 128) with z in H by lia.
  apply H. apply in_seq. lia.
Qed.

(** The float of a length, its square root, and the product of two such
    roots are all at least 1. *)
Lemma of_Z_ge_one D : 1 <= D < 2 ^ 63 -> ge_one (Prim2SF (Float.of_Z D)).
Proof.
  intros HD. unfold Float.of_Z.
  destruct (Z.ltb_spec D 0) as [Hneg | _]; [lia |].
  apply of_uint63_ge_one. exact HD.
Qed.

Lemma norm_product_ge_one D :
  1 <= D < 2 ^ 63 ->
  ge_one (Prim2SF (PrimFloat.sqrt (Float.of_Z D) * PrimFloat.sqrt (Float.of_Z D))).
Proof.
  intros HD. rewrite FloatAxioms.mul_spec, FloatAxioms.sqrt_spec.
  apply SFmul_ge_one; apply SFsqrt_ge_one, of_Z_ge_one, HD.
Qed.

Lemma norm_nonzero D :
  1 <= D < 2 ^ 63 -> (PrimFloat.sqrt (Float.of_Z D) =? 0)%float = false.
Proof.
  intros HD. apply ge_one_not_zero. rewrite FloatAxioms.sqrt_spec.
  apply SFsqrt_ge_one, of_Z_ge_one, HD.
Qed.

(** ** The descending stable sort *)

Section PySortedFacts.

Context {A K : Type} (lt : K -> K -> bool) (key : A -> K).

Lemma insert_desc_perm x l : Permutation (insert_desc lt key x l) (x :: l).
Proof.
  induction l as [|y l IH]; simpl; [apply Permutation_refl |].
  destruct (lt (key x) (key y)); [| apply Permutation_refl].
  apply perm_trans with (y :: x :: l);
    [apply perm_skip; exact IH | apply perm_swap].
Qed.

Lemma sorted_reverse_perm l : Permutation (sorted_reverse lt key l) l.
Proof.
  induction l as [|x l IH]; simpl; [apply perm_nil |].
  apply perm_trans with (x :: sorted_reverse lt key l);
    [apply insert_desc_perm | apply perm_skip; exact IH].
Qed.

(** Sortedness: on a set [P] of keys where [le] is the total preorder whose
    strict part is [lt], the result is in descending order. *)
Section Descending.

Variables (le : K -> K -> bool) (P : K -> Prop).
Hypothesis le_trans : forall a b c, le a b = true -> le b c = true -> le a c = true.
Hypothesis lt_le : forall a b, lt a b = true -> le a b = true.
Hypothesis not_lt_le : forall a b, P a -> P b -> lt a b = false -> le b a = true.

Definition descending (x y : A) : Prop := le (key y) (key x) = true.

Lemma insert_desc_sorted x l :
  P (key x) -> Forall (fun y => P (key y)) l ->
  StronglySorted descending l ->
  StronglySorted descending (insert_desc lt key x l).
Proof.
  intros Px HP Hs. induction Hs as [|y l Hs IH Hy]; simpl.
  - repeat constructor.
  - inversion HP as [|? ? Py HP']; subst.
    destruct (lt (key x) (key y)) eqn:E.
    + constructor; [apply IH; exact HP' |].
      apply (Permutation_Forall (Permutation_sym (insert_desc_perm x l))).
      constructor; [apply lt_le; exact E | exact Hy].
    + assert (Hxy : descending x y) by (apply not_lt_le; assumption).
      constructor; [constructor; assumption |].
      constructor; [exact Hxy |].
      eapply Forall_impl; [| exact Hy].
      intros z Hz. unfold descending in *. eapply le_trans; eassumption.
Qed.

Lemma sorted_reverse_sorted l :
  Forall (fun y => P (key y)) l ->
  StronglySorted descending (sorted_reverse lt key l).
Proof.
  induction l as [|x l IH]; intros HP; simpl; [constructor |].
  inversion HP as [|? ? Px HP']; subst.
  apply insert_desc_sorted; [exact Px | | apply IH; exact HP'].
  apply (Permutation_Forall (Permutation_sym (sorted_reverse_perm l))).
  exact HP'.
Qed.

End Descending.

End PySortedFacts.

(** ** CPython's sort of a short list *)

Lemma StronglySorted_app_iff {A} (R : A -> A -> Prop) (l1 l2 : list A) :
  StronglySorted R (l1 ++ l2)
  <-> StronglySorted R l1 /\ StronglySorted R l2
      /\ Forall (fun x => Forall (R x) l2) l1.
Proof.
  induction l1 as [|x l1 IH]; simpl.
  - split; [intros H; repeat split; [constructor | exact H | constructor] |].
    intros (_ & H & _). exact H.
  - split.
    + intros H. inversion H as [|? ? Hs Hx]; subst.
      apply IH in Hs. destruct Hs as (H1 & H2 & H12).
      apply Forall_app in Hx. destruct Hx as [Hx1 Hx2].
      repeat split; [constructor; assumption | exact H2 |].
      constructor; assumption.
    + intros (H1 & H2 & H12).
      inversion H1 as [|? ? Hs Hx]; subst.
      inversion H12 as [|? ? Hx2 H12']; subst.
      constructor; [apply IH; repeat split; assumption |].
      apply Forall_app. split; assumption.
Qed.

Lemma StronglySorted_rev {A} (R : A -> A -> Prop) (l : list A) :
  StronglySorted R l -> StronglySorted (fun x y => R y x) (rev l).
Proof.
  induction 1 as [|x l Hs IH Hx]; simpl; [constructor |].
  apply StronglySorted_app_iff. repeat split.
  - exact IH.
  - repeat constructor.
  - apply Forall_forall. intros y Hy. constructor; [| constructor].
    rewrite Forall_forall in Hx. apply Hx. apply in_rev. exact Hy.
Qed.

Lemma StronglySorted_nth_error {A} (R : A -> A -> Prop) (l : list A) :
  StronglySorted R l ->
  forall i j x y, (i < j)%nat ->
    nth_error l i = Some x -> nth_error l j = Some y -> R x y.
Proof.
  induction 1 as [|z l Hs IH Hz]; intros i j x y Hij Hi Hj.
  - destruct i; discriminate.
  - destruct j as [|j]; [lia |]. simpl in Hj.
    destruct i as [|i]; simpl in Hi.
    + injection Hi as <-. rewrite Forall_forall in Hz.
      apply Hz. eapply nth_error_In. exact Hj.
    + apply (IH i j); [lia | assumption | assumption].
Qed.

Lemma filter_rev_eq {A} (p : A -> bool) (l : list A) :
  filter p (rev l) = rev (filter p l).
Proof.
  induction l as [|x l IH]; simpl; [reflexivity |].
  rewrite filter_app, IH. simpl.
  destruct (p x); simpl; [reflexivity | apply app_nil_r].
Qed.

Section ListSortFacts.

Context {A K : Type} (lt : K -> K -> bool) (key : A -> K).

Lemma binary_insert_perm run pivot :
  Permutation (binary_insert lt key run pivot) (run ++ [pivot]).
Proof.
  unfold binary_insert.
  set (k := bisect lt key (S (length run)) pivot run 0%nat (length run)).
  rewrite <- (firstn_skipn k run) at 3. rewrite <- app_assoc.
  apply Permutation_app_head.
  apply Permutation_cons_append.
Qed.

Lemma binarysort_perm rest : forall run,
  Permutation (binarysort lt key run rest) (run ++ rest).
Proof.
  unfold binarysort.
  induction rest as [|x rest IH]; intros run; simpl.
  - rewrite app_nil_r. apply Permutation_refl.
  - eapply perm_trans; [apply IH |].
    change (x :: rest) with ([x] ++ rest). rewrite app_assoc.
    apply Permutation_app_tail. apply binary_insert_perm.
Qed.

Lemma list_sort_perm l : Permutation (list_sort lt key l) l.
Proof.
  unfold list_sort. destruct (count_run lt key l) as [n descending].
  eapply perm_trans; [apply binarysort_perm |].
  apply perm_trans with (firstn n l ++ skipn n l);
    [| rewrite firstn_skipn; apply Permutation_refl].
  apply Permutation_app_tail.
  destruct descending; [| apply Permutation_refl].
  apply Permutation_sym, Permutation_rev.
Qed.

Lemma list_sort_reverse_perm l : Permutation (list_sort_reverse lt key l) l.
Proof.
  unfold list_sort_reverse.
  eapply perm_trans; [apply Permutation_sym, Permutation_rev |].
  eapply perm_trans; [apply list_sort_perm |].
  apply Permutation_sym, Permutation_rev.
Qed.

(** On a set [P] of keys where [le] is the total preorder whose strict
    part is [lt], the sort puts the list in order and keeps apart no two
    elements of a class [p] that [lt] does not separate. *)
Section Ordered.

Variables (le : K -> K -> bool) (P : K -> Prop) (p : A -> bool).
Hypothesis le_trans : forall a b c, le a b = true -> le b c = true -> le a c = true.
Hypothesis lt_le : forall a b, lt a b = true -> le a b = true.
Hypothesis not_lt_le : forall a b, P a -> P b -> lt a b = false -> le b a = true.
Hypothesis le_not_lt : forall a b, le a b = true -> lt b a = false.
Hypothesis lt_le_trans :
  forall a b c, lt a b = true -> le b c = true -> lt a c = true.
Hypothesis p_ties :
  forall x y, p x = true -> p y = true -> lt (key x) (key y) = false.

Definition ascending (x y : A) : Prop := le (key x) (key y) = true.

Definition strictly_descending (x y : A) : Prop := lt (key y) (key x) = true.

Lemma ascending_run_sorted l : forall prev,
  Forall (fun y => P (key y)) (prev :: l) ->
  StronglySorted ascending (prev :: firstn (ascending_run lt key prev l) l).
Proof.
  induction l as [|x l IH]; intros prev HP; simpl.
  - repeat constructor.
  - inversion HP as [|? ? Pp HP']; subst.
    inversion HP' as [|? ? Px _]; subst.
    destruct (lt (key x) (key prev)) eqn:E; simpl; [repeat constructor |].
    specialize (IH x HP'). inversion IH as [|? ? _ Hx]; subst.
    assert (Hpx : ascending prev x) by (apply not_lt_le; assumption).
    constructor; [exact IH |].
    constructor; [exact Hpx |].
    eapply Forall_impl; [| exact Hx].
    intros z Hz. unfold ascending in *. eapply le_trans; eassumption.
Qed.

Lemma descending_run_sorted l : forall prev,
  StronglySorted strictly_descending
    (prev :: firstn (descending_run lt key prev l) l).
Proof.
  induction l as [|x l IH]; intros prev; simpl.
  - repeat constructor.
  - destruct (lt (key x) (key prev)) eqn:E; simpl; [| repeat constructor].
    specialize (IH x). inversion IH as [|? ? _ Hx]; subst.
    constructor; [exact IH |].
    constructor; [exact E |].
    eapply Forall_impl; [| exact Hx].
    intros z Hz. unfold strictly_descending in *.
    eapply lt_le_trans; [exact Hz | apply lt_le; exact E].
Qed.

Lemma strictly_descending_rev_sorted l :
  StronglySorted strictly_descending l -> StronglySorted ascending (rev l).
Proof.
  intros H. apply StronglySorted_rev in H.
  clear -H lt_le. induction H as [|x l' Hs IH Hx]; constructor; [exact IH |].
  eapply Forall_impl; [| exact Hx].
  intros y Hy. apply lt_le. exact Hy.
Qed.

Lemma strictly_descending_rev_filter l :
  StronglySorted strictly_descending l -> filter p (rev l) = filter p l.
Proof.
  induction 1 as [|x l Hs IH Hx]; [reflexivity |].
  simpl. rewrite filter_app, IH. simpl.
  destruct (p x) eqn:Ex; [| apply app_nil_r].
  assert (Hnil : filter p l = []).
  { clear -Hx Ex p_ties. induction l as [|y l IH]; [reflexivity |].
    inversion Hx as [|? ? Hy Hl]; subst. simpl.
    destruct (p y) eqn:Ey; [| apply IH; exact Hl].
    unfold strictly_descending in Hy.
    rewrite (p_ties y x Ey Ex) in Hy. discriminate. }
  rewrite Hnil. reflexivity.
Qed.

(** The first run, put in ascending order. *)
Lemma first_run_sorted l n descending :
  Forall (fun y => P (key y)) l ->
  count_run lt key l = (n, descending) ->
  StronglySorted ascending
    (if descending then rev (firstn n l) else firstn n l)
  /\ filter p (if descending then rev (firstn n l) else firstn n l)
     = filter p (firstn n l).
Proof.
  intros HP E. destruct l as [|x0 [|x1 l]]; simpl in E.
  - injection E as <- <-. split; [constructor | reflexivity].
  - injection E as <- <-. split; [repeat constructor | reflexivity].
  - inversion HP as [|? ? P0 HP']; subst.
    destruct (lt (key x1) (key x0)) eqn:E01; injection E as <- <-.
    + pose proof (descending_run_sorted l x1) as Hs.
      assert (Hs' : StronglySorted strictly_descending
                      (x0 :: x1 :: firstn (descending_run lt key x1 l) l)).
      { inversion Hs as [|? ? _ Hx]; subst.
        constructor; [exact Hs |].
        constructor; [exact E01 |].
        eapply Forall_impl; [| exact Hx].
        intros z Hz. unfold strictly_descending in *.
        eapply lt_le_trans; [exact Hz | apply lt_le; exact E01]. }
      split.
      * apply strictly_descending_rev_sorted. exact Hs'.
      * apply strictly_descending_rev_filter. exact Hs'.
    + split; [| reflexivity].
      pose proof (ascending_run_sorted l x1 HP') as Hs.
      inversion HP' as [|? ? P1 _]; subst.
      inversion Hs as [|? ? _ Hx]; subst.
      assert (H01 : ascending x0 x1) by (apply not_lt_le; assumption).
      constructor; [exact Hs |].
      constructor; [exact H01 |].
      eapply Forall_impl; [| exact Hx].
      intros z Hz. unfold ascending in *. eapply le_trans; eassumption.
Qed.

(** The binary search stops where the pivot belongs: no item before is
    greater, every item from there on is. *)
Lemma bisect_spec pivot run :
  P (key pivot) ->
  Forall (fun y => P (key y)) run ->
  StronglySorted ascending run ->
  forall fuel l r,
    (l <= r <= length run)%nat -> (r - l < fuel)%nat ->
    (forall i y, (i < l)%nat -> nth_error run i = Some y ->
       lt (key pivot) (key y) = false) ->
    (forall i y, (r <= i)%nat -> nth_error run i = Some y ->
       lt (key pivot) (key y) = true) ->
    let k := bisect lt key fuel pivot run l r in
    (forall i y, (i < k)%nat -> nth_error run i = Some y ->
       lt (key pivot) (key y) = false)
    /\ (forall i y, (k <= i)%nat -> nth_error run i = Some y ->
          lt (key pivot) (key y) = true).
Proof.
  intros Pp HP Hs. rewrite Forall_forall in HP.
  induction fuel as [|fuel IH]; intros l r Hlr Hfuel Hlo Hhi; [lia |].
  cbn [bisect].
  destruct (Nat.ltb_spec l r) as [Hlt | Hge].
  - assert (Hd : (Nat.div2 (r - l) < r - l)%nat) by (apply Nat.lt_div2; lia).
    remember (Nat.div2 (r - l)) as d eqn:Ed. clear Ed.
    set (m := (l + d)%nat) in *.
    assert (Hm : (l <= m < r)%nat) by (unfold m; lia).
    destruct (nth_error run m) as [y |] eqn:Ey.
    + assert (Py : P (key y)) by (apply HP; eapply nth_error_In; exact Ey).
      destruct (lt (key pivot) (key y)) eqn:E.
      * apply IH; [lia | lia | exact Hlo |].
        intros i z Hi Hz.
        destruct (Nat.eq_dec i m) as [-> | Hne]; [congruence |].
        eapply lt_le_trans; [exact E |].
        apply (StronglySorted_nth_error _ _ Hs m i); [lia | exact Ey | exact Hz].
      * apply IH; [lia | lia | | exact Hhi].
        intros i z Hi Hz.
        destruct (Nat.eq_dec i m) as [-> | Hne]; [congruence |].
        apply le_not_lt. eapply le_trans.
        -- apply (StronglySorted_nth_error _ _ Hs i m); [lia | exact Hz | exact Ey].
        -- apply not_lt_le; assumption.
    + apply nth_error_None in Ey. lia.
  - assert (l = r) by lia. subst r. split; assumption.
Qed.

Lemma binary_insert_sorted run pivot :
  P (key pivot) ->
  Forall (fun y => P (key y)) run ->
  StronglySorted ascending run ->
  StronglySorted ascending (binary_insert lt key run pivot)
  /\ filter p (binary_insert lt key run pivot) = filter p (run ++ [pivot]).
Proof.
  intros Pp HP Hs. unfold binary_insert.
  destruct (bisect_spec pivot run Pp HP Hs (S (length run)) 0%nat (length run))
    as [Hlo Hhi]; [lia | lia | intros; lia | |].
  { intros i y Hi Hy.
    assert (i < length run)%nat by (apply nth_error_Some; congruence). lia. }
  set (k := bisect lt key (S (length run)) pivot run 0%nat (length run)) in *.
  assert (Hfirst : Forall (fun y => lt (key pivot) (key y) = false)
                     (firstn k run)).
  { apply Forall_forall. intros y Hy.
    apply In_nth_error in Hy. destruct Hy as [i Hi].
    assert (i < k)%nat.
    { assert (Hlen : (i < length (firstn k run))%nat)
        by (apply nth_error_Some; congruence).
      rewrite length_firstn in Hlen. lia. }
    rewrite nth_error_firstn in Hi.
    destruct (Nat.ltb_spec i k); [| lia].
    apply (Hlo i); assumption. }
  assert (Hrest : Forall (fun y => lt (key pivot) (key y) = true)
                    (skipn k run)).
  { apply Forall_forall. intros y Hy.
    apply In_nth_error in Hy. destruct Hy as [i Hi].
    rewrite nth_error_skipn in Hi.
    apply (Hhi (k + i)%nat); [lia | exact Hi]. }
  rewrite <- (firstn_skipn k run) in Hs, HP.
  apply StronglySorted_app_iff in Hs. destruct Hs as (H1 & H2 & H12).
  apply Forall_app in HP. destruct HP as [HP1 HP2].
  split.
  - apply StronglySorted_app_iff. repeat split.
    + exact H1.
    + constructor; [exact H2 |].
      eapply Forall_impl; [| exact Hrest].
      intros y Hy. apply lt_le. exact Hy.
    + rewrite Forall_forall in H12, Hfirst, HP1 |- *.
      intros x Hx. constructor; [| apply H12; exact Hx].
      apply not_lt_le; [exact Pp | apply HP1; exact Hx | apply Hfirst; exact Hx].
  - rewrite <- (firstn_skipn k run) at 3.
    rewrite !filter_app. simpl. rewrite <- app_assoc. f_equal.
    destruct (p pivot) eqn:Ep; [| rewrite app_nil_r; reflexivity].
    assert (Hnil : filter p (skipn k run) = []).
    { clear -Hrest Ep p_ties. induction (skipn k run) as [|y l IH];
        [reflexivity |].
      inversion Hrest as [|? ? Hy Hl]; subst. simpl.
      destruct (p y) eqn:Ey; [| apply IH; exact Hl].
      rewrite (p_ties pivot y Ep Ey) in Hy. discriminate. }
    rewrite Hnil. reflexivity.
Qed.

Lemma binarysort_sorted rest : forall run,
  Forall (fun y => P (key y)) run ->
  Forall (fun y => P (key y)) rest ->
  StronglySorted ascending run ->
  StronglySorted ascending (binarysort lt key run rest)
  /\ filter p (binarysort lt key run rest) = filter p (run ++ rest).
Proof.
  unfold binarysort.
  induction rest as [|x rest IH]; intros run HPr HP Hs; simpl.
  - rewrite app_nil_r. split; [exact Hs | reflexivity].
  - inversion HP as [|? ? Px HP']; subst.
    destruct (binary_insert_sorted run x Px HPr Hs) as [Hs' Hf].
    destruct (IH (binary_insert lt key run x)) as [Hs'' Hf'];
      [| exact HP' | exact Hs' |].
    { apply (Permutation_Forall (Permutation_sym (binary_insert_perm run x))).
      apply Forall_app. split; [exact HPr | constructor; [exact Px | constructor]]. }
    split; [exact Hs'' |].
    rewrite Hf', filter_app, Hf, <- filter_app, <- app_assoc. reflexivity.
Qed.

Lemma list_sort_sorted l :
  Forall (fun y => P (key y)) l ->
  StronglySorted ascending (list_sort lt key l)
  /\ filter p (list_sort lt key l) = filter p l.
Proof.
  intros HP. unfold list_sort.
  destruct (count_run lt key l) as [n descending] eqn:E.
  destruct (first_run_sorted l n descending HP E) as [Hs Hf].
  pose proof HP as HP'. rewrite <- (firstn_skipn n l) in HP'.
  apply Forall_app in HP'. destruct HP' as [HP1 HP2].
  destruct (binarysort_sorted (skipn n l)
              (if descending then rev (firstn n l) else firstn n l))
    as [Hs' Hf']; [| exact HP2 | exact Hs |].
  { destruct descending; [| exact HP1].
    apply (Permutation_Forall (Permutation_rev (firstn n l))). exact HP1. }
  split; [exact Hs' |].
  rewrite Hf', filter_app, Hf, <- filter_app, firstn_skipn. reflexivity.
Qed.

Lemma list_sort_reverse_sorted l :
  Forall (fun y => P (key y)) l ->
  StronglySorted (fun x y => le (key y) (key x) = true)
    (list_sort_reverse lt key l)
  /\ filter p (list_sort_reverse lt key l) = filter p l.
Proof.
  intros HP. unfold list_sort_reverse.
  destruct (list_sort_sorted (rev l)) as [Hs Hf].
  { apply (Permutation_Forall (Permutation_rev l)). exact HP. }
  split.
  - apply StronglySorted_rev in Hs. exact Hs.
  - rewrite filter_rev_eq, Hf, filter_rev_eq. apply rev_involutive.
Qed.

End Ordered.

End ListSortFacts.

(** CPython's sort does what Python's sort promises. *)
Lemma cpython_sorted_rearranges : rearranges cpython_sorted.
Proof. intros l. apply list_sort_reverse_perm. Qed.

Lemma cpython_sorted_sorts_stably : sorts_stably cpython_sorted.
Proof.
  intros l Hnan. split.
  - refine (proj1 (list_sort_reverse_sorted PrimFloat.ltb snd PrimFloat.leb
                     (fun s => PrimFloat.is_nan s = false) (fun _ => false)
                     float_leb_trans float_ltb_leb float_ltb_false_leb
                     float_leb_not_ltb float_ltb_leb_trans _ l Hnan)).
    discriminate.
  - intros s.
    refine (proj2 (list_sort_reverse_sorted PrimFloat.ltb snd PrimFloat.leb
                     (fun s => PrimFloat.is_nan s = false)
                     (fun e => (snd e =? s)%float)
                     float_leb_trans float_ltb_leb float_ltb_false_leb
                     float_leb_not_ltb float_ltb_leb_trans _ l Hnan)).
    intros x y Hx Hy. exact (float_eqb_not_ltb _ _ s Hx Hy).
Qed.

(** ** The dictionary *)

Lemma dict_get_set_same {V} (k : string) (v : V) (d : dict V) :
  Dict.get k (Dict.set k v d) = Some v.
Proof.
  induction d as [|[k' x] d IH]; simpl.
  - rewrite String.eqb_refl. reflexivity.
  - destruct (String.eqb k' k) eqn:E; simpl; rewrite E; [reflexivity | exact IH].
Qed.

Lemma dict_get_set_other {V} (k k0 : string) (v : V) (d : dict V) :
  k0 <> k -> Dict.get k0 (Dict.set k v d) = Dict.get k0 d.
Proof.
  intros Hne. induction d as [|[k' x] d IH]; simpl.
  - apply String.eqb_neq in Hne. rewrite String.eqb_sym, Hne. reflexivity.
  - destruct (String.eqb k' k) eqn:E; simpl.
    + apply String.eqb_eq in E. subst k'.
      apply not_eq_sym in Hne. apply String.eqb_neq in Hne.
      rewrite Hne. reflexivity.
    + destruct (String.eqb k' k0); [reflexivity | exact IH].
Qed.

Lemma dict_keys_set {V} (k : string) (v : V) (d : dict V) :
  Dict.keys (Dict.set k v d)
  = if mem k (Dict.keys d) then Dict.keys d else Dict.keys d ++ [k].
Proof.
  unfold Dict.keys, mem. induction d as [|[k' x] d IH]; simpl; [reflexivity |].
  rewrite (String.eqb_sym k k').
  destruct (String.eqb k' k) eqn:E; simpl; [reflexivity |].
  rewrite IH. destruct (existsb (String.eqb k) (map fst d)); reflexivity.
Qed.

Lemma mem_In k l : mem k l = true <-> In k l.
Proof.
  unfold mem. rewrite existsb_exists. split.
  - intros (x & Hx & E). apply String.eqb_eq in E. subst. exact Hx.
  - intros H. exists k. split; [exact H | apply String.eqb_refl].
Qed.

Lemma dict_set_NoDup {V} (k : string) (v : V) (d : dict V) :
  NoDup (Dict.keys d) -> NoDup (Dict.keys (Dict.set k v d)).
Proof.
  intros Hd. rewrite dict_keys_set.
  destruct (mem k (Dict.keys d)) eqn:E; [exact Hd |].
  apply (Permutation_NoDup (Permutation_cons_append (Dict.keys d) k)).
  constructor; [| exact Hd].
  intros Hin. apply mem_In in Hin. congruence.
Qed.

Lemma filter_filter {X} (f g : X -> bool) l :
  filter f (filter g l) = filter (fun x => g x && f x) l.
Proof.
  induction l as [|x l IH]; simpl; [reflexivity |].
  destruct (g x); simpl; [destruct (f x) |]; rewrite IH; reflexivity.
Qed.

(** The keys of a memory grown by [add], in first-added order. *)
Lemma add_all_keys ops : forall m,
  Dict.keys (items (add_all ops m))
  = Dict.keys (items m)
    ++ filter (fun k => negb (mem k (Dict.keys (items m))))
              (first_added (map fst ops)).
Proof.
  induction ops as [|[k v] ops IH]; intros m; simpl.
  - rewrite app_nil_r. reflexivity.
  - unfold add_all in *. simpl. rewrite IH. clear IH.
    unfold add. simpl. rewrite dict_keys_set.
    destruct (mem k (Dict.keys (items m))) eqn:E; simpl.
    + f_equal. rewrite filter_filter. apply filter_ext. intros x.
      destruct (String.eqb x k) eqn:Ex; simpl; [| reflexivity].
      apply String.eqb_eq in Ex. subst x. rewrite E. reflexivity.
    + rewrite <- app_assoc. simpl. f_equal. f_equal.
      rewrite filter_filter. apply filter_ext. intros x.
      unfold mem. rewrite existsb_app. simpl. rewrite orb_false_r.
      rewrite negb_orb. apply andb_comm.
Qed.

Lemma cosine_similarity_same_length a b :
  length a = length b -> exists s, cosine_similarity a b = OK s.
Proof.
  intros H. unfold cosine_similarity, Np.dot.
  rewrite H, Nat.eqb_refl. simpl. eexists. reflexivity.
Qed.

(** The comprehension scores every entry, in the dictionary's order. *)
Lemma scores_total q (d : dict ndarray) :
  Forall (fun kv => length (snd kv) = length q) d ->
  exists sc,
    scores q d = OK sc
    /\ map fst sc = Dict.keys d
    /\ forall key s,
         In (key, s) sc
         <-> exists stored, In (key, stored) d /\ cosine_similarity q stored = OK s.
Proof.
  induction d as [|[k v] d IH]; intros Hlen; simpl.
  - exists []. split; [reflexivity |]. split; [reflexivity |].
    intros key s. simpl. split; [tauto | intros (? & [] & _)].
  - inversion Hlen as [|? ? Hv Hd]; subst. simpl in Hv.
    destruct (cosine_similarity_same_length q v (eq_sym Hv)) as [s0 Es0].
    destruct (IH Hd) as (sc & Esc & Hkeys & Hin).
    rewrite Es0, Esc. simpl.
    exists ((k, s0) :: sc). split; [reflexivity |].
    split; [simpl; rewrite Hkeys; reflexivity |].
    intros key s. simpl. rewrite Hin. split.
    + intros [E | (stored & H1 & H2)].
      * inversion E; subst. exists v. auto.
      * exists stored. auto.
    + intros (stored & [E | H1] & H2).
      * inversion E; subst. left. congruence.
      * right. exists stored. auto.
Qed.

(** ** Similarity of a vector with itself *)

Lemma bipolar_sum_squares v :
  bipolar v -> fold_right Z.add 0 (map (fun x => x * x) v) = Z.of_nat (length v).
Proof.
  induction v as [|x v IH]; intros Hv; [reflexivity |].
  apply bipolar_cons in Hv. destruct Hv as [Hx Hv].
  simpl length. rewrite Nat2Z.inj_succ. simpl. rewrite IH by exact Hv.
  destruct Hx as [-> | ->]; lia.
Qed.

Lemma bipolar_dot_self v :
  bipolar v -> fold_right Z.add 0 (Np.zip_with Z.mul v v) = Z.of_nat (length v).
Proof.
  induction v as [|x v IH]; intros Hv; [reflexivity |].
  apply bipolar_cons in Hv. destruct Hv as [Hx Hv].
  simpl length. rewrite Nat2Z.inj_succ. simpl. rewrite IH by exact Hv.
  destruct Hx as [-> | ->]; lia.
Qed.

Lemma bipolar_dot_negate v :
  bipolar v ->
  fold_right Z.add 0 (Np.zip_with Z.mul v (negate v)) = - Z.of_nat (length v).
Proof.
  unfold negate.
  induction v as [|x v IH]; intros Hv; [reflexivity |].
  apply bipolar_cons in Hv. destruct Hv as [Hx Hv].
  simpl length. rewrite Nat2Z.inj_succ.
  cbn [map Np.zip_with fold_right]. rewrite IH by exact Hv.
  destruct Hx as [-> | ->]; lia.
Qed.

Lemma negate_sum_squares v :
  fold_right Z.add 0 (map (fun x => x * x) (negate v))
  = fold_right Z.add 0 (map (fun x => x * x) v).
Proof.
  unfold negate. induction v as [|x v IH]; simpl; [reflexivity |].
  rewrite IH. lia.
Qed.

(** The norm of a bipolar vector of length [D] is [sqrt D]. *)
Lemma bipolar_norm v :
  bipolar v -> Np.norm v = PrimFloat.sqrt (Float.of_Z (Z.of_nat (length v))).
Proof.
  intros Hv. unfold Np.norm. rewrite bipolar_sum_squares by exact Hv.
  reflexivity.
Qed.

(** On bipolar vectors of one positive length the similarity is a number:
    the dot product is an [int8], and the product of the norms is at least
    1. *)
Lemma bipolar_similarity_not_nan a b :
  bipolar a -> bipolar b -> length a = length b ->
  1 <= Z.of_nat (length a) < 2 ^ 63 ->
  exists s, cosine_similarity a b = OK s /\ PrimFloat.is_nan s = false.
Proof.
  intros Ha Hb Hlen HD. unfold cosine_similarity, Np.dot.
  rewrite Hlen, Nat.eqb_refl. simpl.
  eexists. split; [reflexivity |].
  apply div_not_nan.
  - apply int8_float_finite. apply wrap8_range.
  - rewrite (bipolar_norm a Ha), (bipolar_norm b Hb), <- Hlen.
    apply norm_product_ge_one. exact HD.
Qed.

(** What the code computes on [v, v] and on [v, -v] for a bipolar [v] of
    length [D] whose dot product fits an [int8]. *)
Lemma self_similarity_formula v :
  bipolar v -> (length v <= 127)%nat ->
  cosine_similarity v v = OK (self_similarity (Z.of_nat (length v)))
  /\ cosine_similarity v (negate v) = OK (opposite_similarity (Z.of_nat (length v))).
Proof.
  intros Hv HD. unfold cosine_similarity, Np.dot, Np.norm.
  unfold negate at 1. rewrite length_map, Nat.eqb_refl.
  rewrite negate_sum_squares, bipolar_sum_squares by exact Hv.
  rewrite bipolar_dot_self, bipolar_dot_negate by exact Hv.
  rewrite !wrap8_small by lia. split; reflexivity.
Qed.

Lemma small_dimensions_checked :
  forallb within_rounding_of_one (map Z.of_nat (seq 1 127)) = true.
Proof. vm_compute. reflexivity. Qed.

Lemma within_rounding_small (D : nat) :
  (1 <= D <= 127)%nat -> within_rounding_of_one (Z.of_nat D) = true.
Proof.
  intros HD. pose proof small_dimensions_checked as H.
  rewrite forallb_forall in H. apply H.
  apply in_map. apply in_seq. lia.
Qed.

(** C8, as the code has it: for a bipolar vector [v] of positive length [D]
    (the length of an array is below [2^63]), the norm of [v] is [sqrt D]
    and is not zero, and [cosine_similarity] returns a number, not NaN, for
    [v] and every bipolar vector of the same length; for [D <= 127],
    [cosine_similarity v v] returns a float within [2^-52] of 1.0 and
    [cosine_similarity v (-v)] one within [2^-52] of -1.0. *)
Theorem cosine_similarity_self (v : ndarray) :
  bipolar v -> 1 <= Z.of_nat (length v) < 2 ^ 63 ->
  Np.norm v = PrimFloat.sqrt (Float.of_Z (Z.of_nat (length v)))
  /\ (Np.norm v =? 0)%float = false
  /\ (forall w, bipolar w -> length w = length v ->
        exists s, cosine_similarity v w = OK s /\ PrimFloat.is_nan s = false)
  /\ (Z.of_nat (length v) <= 127 ->
        exists s s',
          cosine_similarity v v = OK s
          /\ cosine_similarity v (negate v) = OK s'
          /\ (PrimFloat.abs (s - 1) <=? rounding_unit)%float = true
          /\ (PrimFloat.abs (s' + 1) <=? rounding_unit)%float = true).
Proof.
  intros Hv HD.
  split; [apply bipolar_norm; exact Hv |].
  split; [rewrite bipolar_norm by exact Hv; apply norm_nonzero; exact HD |].
  split.
  - intros w Hw Hlen.
    apply bipolar_similarity_not_nan; auto.
  - intros Hsmall.
    pose proof (within_rounding_small (length v) ltac:(lia)) as Hc.
    unfold within_rounding_of_one in Hc.
    apply andb_true_iff in Hc. destruct Hc as [Hs Hs'].
    destruct (self_similarity_formula v Hv) as [E E']; [lia |].
    exists (self_similarity (Z.of_nat (length v))),
           (opposite_similarity (Z.of_nat (length v))).
    auto.
Qed.

Lemma cosine_similarity_self_witness :
  Np.norm [1; -1; -1] = PrimFloat.sqrt (Float.of_Z 3)
  /\ (Np.norm [1; -1; -1]%Z =? 0)%float = false
  /\ (forall w, bipolar w -> length w = 3%nat ->
        exists s, cosine_similarity [1; -1; -1] w = OK s
                  /\ PrimFloat.is_nan s = false)
  /\ (3 <= 127 ->
        exists s s',
          cosine_similarity [1; -1; -1] [1; -1; -1] = OK s
          /\ cosine_similarity [1; -1; -1] (negate [1; -1; -1]) = OK s'
          /\ (PrimFloat.abs (s - 1) <=? rounding_unit)%float = true
          /\ (PrimFloat.abs (s' + 1) <=? rounding_unit)%float = true).
Proof.
  apply (cosine_similarity_self [1; -1; -1]).
  - apply bipolarb_spec. reflexivity.
  - simpl. lia.
Defined.

(** Counterexample to C8 as stated: the quotient is rounded, and already
    for the two components of [[1; 1]] it is not 1.0. *)
Lemma self_similarity_rounded :
  bipolar [1; 1]
  /\ cosine_similarity [1; 1] [1; 1] = OK 0x1.ffffffffffffep-1%float
  /\ (0x1.ffffffffffffep-1 =? 1)%float = false.
Proof.
  split; [apply bipolarb_spec; reflexivity |].
  split; reflexivity.
Qed.

(** Beyond 127 components the [int8] dot product wraps: at the module's
    default dimension, 10000, the similarity of a vector with itself comes
    out as 16 / 10000. *)
Lemma self_similarity_default_dimension :
  cosine_similarity (repeat 1 (Z.to_nat DIMENSION)) (repeat 1 (Z.to_nat DIMENSION))
  = OK (16 / 10000)%float.
Proof. vm_compute. reflexivity. Qed.

(** ** The associative memory *)

Lemma query_unfold sorted q m sc :
  scores q (items m) = OK sc ->
  query sorted q m = OK (sorted sc).
Proof. intros E. unfold query. rewrite E. reflexivity. Qed.

Lemma scores_keys q (d : dict ndarray) : forall sc,
  scores q d = OK sc -> map fst sc = Dict.keys d.
Proof.
  induction d as [|[k v] d IH]; intros sc Esc; simpl in Esc.
  - injection Esc as <-. reflexivity.
  - destruct (cosine_similarity q v) as [s0 |]; simpl in Esc; [| discriminate].
    destruct (scores q d) as [sc' |]; simpl in Esc; [| discriminate].
    injection Esc as <-. simpl. rewrite (IH sc' eq_refl). reflexivity.
Qed.

(** C3, as the code has it: for a memory whose stored vectors all have the
    query's length, [query] returns one (key, score) pair per stored entry:
    as many pairs as entries, no key twice, exactly the stored keys, each
    with the score that [cosine_similarity] gives the query and the stored
    vector.  The pairs are in descending order of score whenever no score
    is NaN, and so for every bipolar query and bipolar stored vectors of
    positive length (the length of an array is below [2^63]), none of whose
    scores is NaN.  This holds for every sort that does what Python's
    promises. *)
Theorem query_ranks_every_entry
    (sorted : list (string * float) -> list (string * float))
    (q : ndarray) (m : HDCDictionary) :
  rearranges sorted -> sorts_stably sorted ->
  NoDup (Dict.keys (items m)) ->
  Forall (fun kv => length (snd kv) = length q) (items m) ->
  exists out,
    query sorted q m = OK out
    /\ length out = length (items m)
    /\ NoDup (map fst out)
    /\ (forall key, In key (map fst out) <-> In key (Dict.keys (items m)))
    /\ (forall key s,
          In (key, s) out
          <-> exists stored,
                In (key, stored) (items m) /\ cosine_similarity q stored = OK s)
    /\ (no_nan out -> ranked out)
    /\ (bipolar q -> Forall (fun kv => bipolar (snd kv)) (items m) ->
        1 <= Z.of_nat (length q) < 2 ^ 63 -> ranked out).
Proof.
  intros Hsorted Hstable Hnd Hlen.
  destruct (scores_total q (items m) Hlen) as (sc & Esc & Hkeys & Hin).
  exists (sorted sc).
  pose proof (Hsorted sc) as Hperm.
  split; [apply query_unfold; exact Esc |].
  split.
  { rewrite (Permutation_length Hperm).
    rewrite <- (length_map fst sc), Hkeys. apply length_map. }
  split.
  { apply (Permutation_NoDup (Permutation_map fst (Permutation_sym Hperm))).
    rewrite Hkeys. exact Hnd. }
  split.
  { intros key. rewrite <- Hkeys. split; apply Permutation_in.
    - apply Permutation_map. exact Hperm.
    - apply Permutation_map. apply Permutation_sym. exact Hperm. }
  split.
  { intros key s. rewrite <- Hin. split; apply Permutation_in.
    - exact Hperm.
    - apply Permutation_sym. exact Hperm. }
  split.
  { intros Hnan. apply Hstable.
    apply (Permutation_Forall Hperm). exact Hnan. }
  intros Hq Hb HD. apply Hstable.
  unfold no_nan. apply Forall_forall. intros [key s] Hks.
  apply Hin in Hks. destruct Hks as (stored & Hst & Es).
  rewrite Forall_forall in Hb, Hlen.
  specialize (Hb _ Hst). specialize (Hlen _ Hst). simpl in Hb, Hlen.
  destruct (bipolar_similarity_not_nan q stored Hq Hb (eq_sym Hlen) HD)
    as (s' & Es' & Hs').
  simpl. congruence.
Qed.

Lemma query_ranks_every_entry_witness :
  exists out,
    query cpython_sorted [1; 1; -1; 1]
      {| items := [("farm_1"%string, [1; -1; -1; 1]);
                   ("farm_2"%string, [1; 1; -1; 1]);
                   ("farm_3"%string, [-1; -1; 1; -1])] |} = OK out
    /\ length out = 3%nat
    /\ NoDup (map fst out)
    /\ (forall key,
          In key (map fst out)
          <-> In key ["farm_1"%string; "farm_2"%string; "farm_3"%string])
    /\ (forall key s,
          In (key, s) out
          <-> exists stored,
                In (key, stored)
                   [("farm_1"%string, [1; -1; -1; 1]);
                    ("farm_2"%string, [1; 1; -1; 1]);
                    ("farm_3"%string, [-1; -1; 1; -1])]
                /\ cosine_similarity [1; 1; -1; 1] stored = OK s)
    /\ ranked out.
Proof.
  destruct (query_ranks_every_entry cpython_sorted [1; 1; -1; 1]
              {| items := [("farm_1"%string, [1; -1; -1; 1]);
                           ("farm_2"%string, [1; 1; -1; 1]);
                           ("farm_3"%string, [-1; -1; 1; -1])] |})
    as (out & Hq & Hn & Hd & Hk & Hs & _ & Hr).
  - exact cpython_sorted_rearranges.
  - exact cpython_sorted_sorts_stably.
  - simpl. repeat constructor; simpl; intuition discriminate.
  - simpl. repeat constructor.
  - exists out. repeat split; try assumption; try apply Hk; try apply Hs.
    apply Hr.
    + apply bipolarb_spec. reflexivity.
    + simpl. repeat constructor; apply bipolarb_spec; reflexivity.
    + simpl. lia.
Defined.

(** Counterexample to C3 as stated: a stored vector of zero norm scores
    NaN, and with it the answer is not in descending order.  Here the
    entry scoring 0.0 comes first and the best match, scoring 1.0, last. *)
Lemma query_unranked_with_nan :
  query cpython_sorted [1; 1; 1; 1]
    {| items := [("a"%string, [1; -1; 1; -1]);
                 ("b"%string, [0; 0; 0; 0]);
                 ("c"%string, [1; 1; 1; 1])] |}
  = OK [("a"%string, 0%float); ("b"%string, PrimFloat.nan);
        ("c"%string, 1%float)]
  /\ ~ ranked [("a"%string, 0%float); ("b"%string, PrimFloat.nan);
               ("c"%string, 1%float)].
Proof.
  split; [vm_compute; reflexivity |].
  intros H. inversion H as [|? ? _ Ha]; subst.
  inversion Ha as [|? ? Hab _]; subst.
  vm_compute in Hab. discriminate.
Qed.

(** C6: the memory raises no error of its own.  [add] is defined for every
    key and vector: afterwards the key holds the vector, every other key
    holds what it held, and no key occurs twice; and [query] on the empty
    memory returns the empty ranking, whatever sort rearranges it. *)
Theorem memory_raises_no_error :
  (forall key vector m,
      Dict.get key (items (add key vector m)) = Some vector
      /\ (forall k, k <> key ->
            Dict.get k (items (add key vector m)) = Dict.get k (items m))
      /\ (NoDup (Dict.keys (items m)) ->
          NoDup (Dict.keys (items (add key vector m)))))
  /\ (forall sorted q,
        rearranges sorted -> query sorted q empty_memory = OK []).
Proof.
  split.
  - intros key vector m. unfold add. simpl. split; [| split].
    + apply dict_get_set_same.
    + intros k Hk. apply dict_get_set_other. exact Hk.
    + apply dict_set_NoDup.
  - intros sorted q Hsorted. unfold query. simpl.
    rewrite (Permutation_nil (Permutation_sym (Hsorted []))). reflexivity.
Qed.

Lemma memory_raises_no_error_witness :
  Dict.get "farm_1"%string
    (items (add "farm_2"%string [1; -1]
              {| items := [("farm_1"%string, [-1; -1])] |}))
  = Some [-1; -1]
  /\ query cpython_sorted [1; -1] empty_memory = OK [].
Proof.
  split.
  - apply (proj1 memory_raises_no_error). discriminate.
  - apply (proj2 memory_raises_no_error). exact cpython_sorted_rearranges.
Defined.

(** C10, as the code has it: ties keep the insertion order when no score
    is NaN.  For a memory grown from the empty one by [add] calls, the
    entries in the order their keys were first added form a list [sc]; the
    answer of [query] is a rearrangement of [sc] in which, for every score
    [s], the entries scoring [s] come in the order they have in [sc].  This
    holds for every sort that does what Python's promises. *)
Theorem query_ties_keep_insertion_order
    (sorted : list (string * float) -> list (string * float))
    (ops : list (string * ndarray)) (q : ndarray)
    (out : list (string * float)) :
  rearranges sorted -> sorts_stably sorted ->
  query sorted q (add_all ops empty_memory) = OK out ->
  no_nan out ->
  exists sc,
    map fst sc = first_added (map fst ops)
    /\ Permutation out sc
    /\ forall s,
         filter (fun e => (snd e =? s)%float) out
         = filter (fun e => (snd e =? s)%float) sc.
Proof.
  intros Hsorted Hstable Hq Hnan. unfold query in Hq.
  destruct (scores q (items (add_all ops empty_memory))) as [sc | e] eqn:Esc;
    simpl in Hq; [| discriminate].
  injection Hq as <-.
  exists sc. split; [| split].
  - rewrite (scores_keys _ _ _ Esc), add_all_keys. simpl.
    clear. induction (first_added (map fst ops)) as [|k l IH]; simpl;
      [reflexivity | rewrite IH; reflexivity].
  - apply Hsorted.
  - apply Hstable. apply (Permutation_Forall (Hsorted sc)). exact Hnan.
Qed.

Lemma query_ties_keep_insertion_order_witness :
  exists sc,
    map fst sc
    = first_added (map fst [("b"%string, [1; -1; 1; 1]); ("a"%string, [1; 1; -1; 1]);
                            ("c"%string, [1; 1; 1; 1]); ("b"%string, [1; 1; 1; -1])])
    /\ Permutation
         [("c"%string, 1%float); ("b"%string, 0.5%float); ("a"%string, 0.5%float)] sc
    /\ forall s,
         filter (fun e => (snd e =? s)%float)
           [("c"%string, 1%float); ("b"%string, 0.5%float); ("a"%string, 0.5%float)]
         = filter (fun e => (snd e =? s)%float) sc.
Proof.
  apply (query_ties_keep_insertion_order cpython_sorted
           [("b"%string, [1; -1; 1; 1]); ("a"%string, [1; 1; -1; 1]);
            ("c"%string, [1; 1; 1; 1]); ("b"%string, [1; 1; 1; -1])]
           [1; 1; 1; 1]).
  - exact cpython_sorted_rearranges.
  - exact cpython_sorted_sorts_stably.
  - vm_compute. reflexivity.
  - repeat constructor.
Defined.

(** Counterexample to C10 as stated: with one score that is NaN, entries
    of equal score do not keep the order in which they were added.  The
    keys are added in the order a to g; five of them score 0.0, and of
    these ["b"] is returned before ["a"]. *)
Lemma query_ties_reordered_with_nan :
  first_added
    (map fst [("a"%string, [1; -1; 1; -1]); ("b"%string, [1; -1; 1; -1]);
              ("c"%string, [1; -1; 1; -1]); ("d"%string, [1; -1; 1; -1]);
              ("e"%string, [0; 0; 0; 0]); ("f"%string, [1; -1; 1; -1]);
              ("g"%string, [1; 1; 1; -1])])
  = ["a"; "b"; "c"; "d"; "e"; "f"; "g"]%string
  /\ query cpython_sorted [1; 1; 1; 1]
       (add_all [("a"%string, [1; -1; 1; -1]); ("b"%string, [1; -1; 1; -1]);
                 ("c"%string, [1; -1; 1; -1]); ("d"%string, [1; -1; 1; -1]);
                 ("e"%string, [0; 0; 0; 0]); ("f"%string, [1; -1; 1; -1]);
                 ("g"%string, [1; 1; 1; -1])] empty_memory)
     = OK [("b"%string, 0%float); ("e"%string, PrimFloat.nan);
           ("g"%string, 0.5%float); ("a"%string, 0%float);
           ("c"%string, 0%float); ("d"%string, 0%float);
           ("f"%string, 0%float)].
Proof.
  split; vm_compute; reflexivity.
Qed.


(** * Further properties *)

(** ** Algebra of [bind] *)

Lemma mul8_comm x y : Int.mul8 x y = Int.mul8 y x.
Proof. unfold Int.mul8. rewrite Z.mul_comm. reflexivity. Qed.

Lemma zip_with_comm {A B} (f : A -> A -> B) :
  (forall x y, f x y = f y x) ->
  forall l1 l2, Np.zip_with f l1 l2 = Np.zip_with f l2 l1.
Proof.
  intros Hf. induction l1 as [|x l1 IH]; intros [|y l2]; simpl; try reflexivity.
  rewrite Hf, IH. reflexivity.
Qed.

(** X1: [bind] is commutative on all inputs: with equal lengths, with a
    length-1 operand on either side, and when it fails. *)
Theorem bind_commutative (a b : ndarray) : bind a b = bind b a.
Proof.
  unfold bind, Np.multiply. rewrite (Nat.eqb_sym (length b) (length a)).
  destruct (length a =? length b)%nat eqn:E.
  - rewrite (zip_with_comm Int.mul8 mul8_comm a b). reflexivity.
  - destruct a as [|x [|x' a]], b as [|y [|y' b]]; simpl in E;
      try discriminate; cbn [rbind]; try reflexivity;
      do 2 f_equal; apply map_ext; intros z; apply mul8_comm.
Qed.

(** X2: binding two bipolar vectors of one length gives a bipolar vector of
    that length, the component-wise product. *)
Theorem bind_closed (a b : ndarray) :
  bipolar a -> bipolar b -> length a = length b ->
  exists c,
    bind a b = OK c
    /\ bipolar c
    /\ length c = length a
    /\ forall i, (i < length a)%nat -> nth i c 0 = nth i a 0 * nth i b 0.
Proof.
  intros Ha Hb Hlen.
  destruct (bind_bipolar_product a b Ha Hb Hlen) as [E Hc].
  exists (Np.zip_with Z.mul a b).
  split; [rewrite bind_same_length by exact Hlen; rewrite E; reflexivity |].
  split; [exact Hc |].
  split; [apply zip_with_length; exact Hlen |].
  intros i Hi. apply nth_zip_with; assumption.
Qed.

Lemma bind_closed_witness :
  exists c,
    bind [1; -1; 1] [-1; -1; 1] = OK c
    /\ bipolar c
    /\ length c = 3%nat
    /\ forall i, (i < 3)%nat ->
         nth i c 0 = nth i [1; -1; 1] 0 * nth i [-1; -1; 1] 0.
Proof.
  apply (bind_closed [1; -1; 1] [-1; -1; 1]).
  - apply bipolarb_spec. reflexivity.
  - apply bipolarb_spec. reflexivity.
  - reflexivity.
Defined.

(** X3: a bound pair is decoded by its role: binding the record
    [bind(role, filler)] with the role again gives the filler back. *)
Theorem bind_decodes_filler (role filler : ndarray) :
  bipolar role -> bipolar filler -> length role = length filler ->
  exists record,
    bind role filler = OK record /\ bind record role = OK filler.
Proof.
  intros Hr Hf Hlen.
  destruct (bind_bipolar_product role filler Hr Hf Hlen) as [E Hc].
  exists (Np.zip_with Z.mul role filler). split.
  - rewrite bind_same_length by exact Hlen. rewrite E. reflexivity.
  - assert (Hlen' : length (Np.zip_with Z.mul role filler) = length role)
      by (apply zip_with_length; exact Hlen).
    rewrite bind_same_length by exact Hlen'.
    destruct (bind_bipolar_product _ role Hc Hr Hlen') as [E' _].
    rewrite E'. rewrite (zip_with_comm Z.mul Z.mul_comm role filler).
    rewrite zip_mul_cancel by (auto; congruence). reflexivity.
Qed.

Lemma bind_decodes_filler_witness :
  exists record,
    bind [1; -1; -1; 1] [-1; -1; 1; 1] = OK record
    /\ bind record [1; -1; -1; 1] = OK [-1; -1; 1; 1].
Proof.
  apply bind_decodes_filler.
  - apply bipolarb_spec. reflexivity.
  - apply bipolarb_spec. reflexivity.
  - reflexivity.
Defined.

(** ** Algebra of [bundle] *)

Lemma astype_where_bipolar summed :
  bipolar (Np.astype_int8 (Np.where_nonneg summed)).
Proof.
  induction summed as [|s summed IH]; [constructor |].
  apply bipolar_cons. split; [| exact IH].
  destruct (0 <=? s); [right | left]; reflexivity.
Qed.

Lemma fold_zip_with_length {A} (f : A -> A -> A) rest : forall acc,
  Forall (fun r => length r = length acc) rest ->
  length (fold_left (Np.zip_with f) rest acc) = length acc.
Proof.
  induction rest as [|r rest IH]; intros acc H; simpl; [reflexivity |].
  inversion H as [|? ? Hr Hrest]; subst.
  assert (E : length (Np.zip_with f acc r) = length acc)
    by (apply zip_with_length; symmetry; exact Hr).
  rewrite IH; [exact E |]. rewrite E. exact Hrest.
Qed.

(** X4: whatever the vectors are, a vector that [bundle] returns is bipolar
    and has the length that all of them share. *)
Theorem bundle_output_bipolar (vectors : list ndarray) (out : ndarray) :
  bundle vectors = OK out ->
  bipolar out /\ Forall (fun v => length v = length out) vectors.
Proof.
  destruct vectors as [|first rest]; [discriminate |].
  unfold bundle, Np.sum_axis0.
  match goal with
  | |- context [forallb ?p rest] => destruct (forallb p rest) eqn:E
  end; [| simpl; discriminate].
  simpl. intros H. injection H as <-.
  apply forallb_same_length in E.
  split; [apply astype_where_bipolar |].
  assert (Hlen : length (Np.astype_int8 (Np.where_nonneg
                   (fold_left (Np.zip_with Int.add64) rest (map Int.wrap64 first))))
                 = length first).
  { unfold Np.astype_int8, Np.where_nonneg. rewrite !length_map.
    rewrite fold_zip_with_length; [apply length_map |].
    rewrite length_map. exact E. }
  rewrite Hlen. constructor; [reflexivity | exact E].
Qed.

Lemma bundle_output_bipolar_witness :
  bipolar [1; -1; 1]
  /\ Forall (fun v => length v = length [1; -1; 1]) [[5; -7; 0]; [2; 3; 0]].
Proof.
  apply (bundle_output_bipolar [[5; -7; 0]; [2; 3; 0]] [1; -1; 1]).
  reflexivity.
Defined.

(** X5: bundling a single bipolar vector returns it. *)
Theorem bundle_single (v : ndarray) : bipolar v -> bundle [v] = OK v.
Proof.
  intros Hv. unfold bundle, Np.sum_axis0. simpl. f_equal.
  induction v as [|x v IH]; [reflexivity |].
  apply bipolar_cons in Hv. destruct Hv as [Hx Hv].
  unfold Np.astype_int8, Np.where_nonneg in *.
  cbn [map]. rewrite IH by exact Hv.
  f_equal. destruct Hx as [-> | ->]; reflexivity.
Qed.

Lemma bundle_single_witness : bundle [[1; -1; -1]] = OK [1; -1; -1].
Proof.
  apply bundle_single. apply bipolarb_spec. reflexivity.
Defined.

Lemma wrap64_add_l a b : Int.wrap64 (Int.wrap64 a + b) = Int.wrap64 (a + b).
Proof.
  unfold Int.wrap64, Int.wrap.
  replace ((a + 2 ^ (64 - 1)) mod 2 ^ 64 - 2 ^ (64 - 1) + b + 2 ^ (64 - 1))
    with ((a + 2 ^ (64 - 1)) mod 2 ^ 64 + b) by lia.
  rewrite Zplus_mod_idemp_l. f_equal. f_equal. lia.
Qed.

Lemma add64_comm a b : Int.add64 a b = Int.add64 b a.
Proof. unfold Int.add64. rewrite Z.add_comm. reflexivity. Qed.

Lemma add64_right_comm x a b :
  Int.add64 (Int.add64 x a) b = Int.add64 (Int.add64 x b) a.
Proof.
  unfold Int.add64. rewrite !wrap64_add_l. f_equal. lia.
Qed.

Lemma zip_add64_right_comm acc : forall a b,
  Np.zip_with Int.add64 (Np.zip_with Int.add64 acc a) b
  = Np.zip_with Int.add64 (Np.zip_with Int.add64 acc b) a.
Proof.
  induction acc as [|x acc IH]; intros [|y a] [|z b]; simpl; try reflexivity.
  rewrite add64_right_comm, IH. reflexivity.
Qed.

Lemma zip_add64_first_comm : forall x y : ndarray,
  Np.zip_with Int.add64 (map Int.wrap64 y) x
  = Np.zip_with Int.add64 (map Int.wrap64 x) y.
Proof.
  induction x as [|a x IH]; intros [|b y]; simpl; try reflexivity.
  rewrite IH. f_equal. unfold Int.add64.
  rewrite !wrap64_add_l. f_equal. lia.
Qed.

Lemma fold_zip_add64_perm (l l' : list ndarray) :
  Permutation l l' ->
  forall acc,
    fold_left (Np.zip_with Int.add64) l acc
    = fold_left (Np.zip_with Int.add64) l' acc.
Proof.
  induction 1 as [|x l l' _ IH|x y l|l l' l'' _ IH1 _ IH2]; intros acc; simpl.
  - reflexivity.
  - apply IH.
  - rewrite zip_add64_right_comm. reflexivity.
  - rewrite IH1. apply IH2.
Qed.

Lemma forallb_perm {A} (p : A -> bool) (l l' : list A) :
  Permutation l l' -> forallb p l = forallb p l'.
Proof.
  induction 1 as [|x l l' _ IH|x y l|l l' l'' _ IH1 _ IH2]; simpl.
  - reflexivity.
  - rewrite IH. reflexivity.
  - destruct (p x), (p y); reflexivity.
  - congruence.
Qed.

(** X6: the order of the vectors does not matter to [bundle]: a rearranged
    collection gives the same vector, or the same failure. *)
Theorem bundle_order_irrelevant (vectors vectors' : list ndarray) :
  Permutation vectors vectors' -> bundle vectors = bundle vectors'.
Proof.
  induction 1 as [|x l l' Hp _|x y l|l l' l'' _ IH1 _ IH2].
  - reflexivity.
  - unfold bundle, Np.sum_axis0.
    rewrite (forallb_perm _ l l' Hp), (fold_zip_add64_perm l l' Hp).
    reflexivity.
  - unfold bundle, Np.sum_axis0. simpl.
    rewrite zip_add64_first_comm.
    rewrite (Nat.eqb_sym (length y) (length x)).
    destruct (length x =? length y)%nat eqn:E; [| reflexivity].
    apply Nat.eqb_eq in E. rewrite E. reflexivity.
  - congruence.
Qed.

Lemma bundle_order_irrelevant_witness :
  bundle [[1; -1]; [1; 1]; [-1; -1]] = bundle [[-1; -1]; [1; -1]; [1; 1]].
Proof.
  apply bundle_order_irrelevant.
  apply Permutation_sym. apply (Permutation_cons_append [[1; -1]; [1; 1]] [-1; -1]).
Defined.

(** The components of a bundle of bipolar vectors are the signs of the
    column sums. *)
Lemma bundle_columns first rest :
  bipolar first -> Forall bipolar rest ->
  Forall (fun r => length r = length first) rest ->
  Z.of_nat (length rest) < 2 ^ 63 - 1 ->
  exists out,
    bundle (first :: rest) = OK out
    /\ length out = length first
    /\ forall i, (i < length first)%nat ->
         nth i out 0 = sign_nonneg (column_sum i (first :: rest)).
Proof.
  intros Hf Hr Hlen Hn.
  assert (Hacc : Forall (fun r => length r = length (map Int.wrap64 first)) rest)
    by (rewrite length_map; exact Hlen).
  unfold bundle, Np.sum_axis0.
  destruct (forallb_same_length first rest) as [_ Hfb].
  rewrite (Hfb Hlen). cbn [rbind].
  eexists. split; [reflexivity |]. split.
  - unfold Np.astype_int8, Np.where_nonneg. rewrite !length_map.
    rewrite fold_zip_with_length by exact Hacc. apply length_map.
  - intros i Hi.
    assert (Hfi : nth i first 0 = -1 \/ nth i first 0 = 1)
      by (apply bipolar_nth; assumption).
    assert (Hw : nth i (map Int.wrap64 first) 0 = nth i first 0).
    { change 0 with (Int.wrap64 0) at 1. rewrite map_nth.
      destruct Hfi as [-> | ->]; reflexivity. }
    destruct (fold_add64_nth rest (map Int.wrap64 first) i 1) as [E1 E2]; auto.
    + rewrite length_map. exact Hi.
    + rewrite Hw. lia.
    + lia.
    + rewrite astype_where_nth by (rewrite E1, length_map; exact Hi).
      rewrite E2, Hw. reflexivity.
Qed.

(** Each row that equals [v] adds 1 to [v_i * column sum], every other row
    takes at most 1 away. *)
Lemma majority_column (v : ndarray) (i : nat) rows :
  bipolar v -> (i < length v)%nat ->
  Forall bipolar rows -> Forall (fun r => length r = length v) rows ->
  2 * Z.of_nat (count_occ (list_eq_dec Z.eq_dec) rows v) - Z.of_nat (length rows)
  <= nth i v 0 * column_sum i rows.
Proof.
  intros Hv Hi Hb Hl.
  pose proof (bipolar_nth v i Hv Hi) as Hvi.
  induction rows as [|r rows IH]; [unfold column_sum; simpl; lia |].
  inversion Hb as [|? ? Hr Hb']; subst. inversion Hl as [|? ? Hlr Hl']; subst.
  specialize (IH Hb' Hl').
  assert (Hri : nth i r 0 = -1 \/ nth i r 0 = 1)
    by (apply bipolar_nth; [exact Hr | rewrite Hlr; exact Hi]).
  unfold column_sum in *. cbn [map fold_right count_occ length].
  rewrite Nat2Z.inj_succ.
  destruct (list_eq_dec Z.eq_dec r v) as [-> | Hne].
  - rewrite Nat2Z.inj_succ. destruct Hvi as [E | E]; rewrite E in *; lia.
  - destruct Hvi as [E | E], Hri as [E' | E']; rewrite E, E' in *; lia.
Qed.

(** X7: majority vote.  A bipolar vector that makes up more than half of a
    collection of bipolar vectors of one length is what [bundle] returns. *)
Theorem bundle_majority (v : ndarray) (rows : list ndarray) :
  bipolar v -> Forall bipolar rows ->
  Forall (fun r => length r = length v) rows ->
  Z.of_nat (length rows) < 2 ^ 63 ->
  (length rows < 2 * count_occ (list_eq_dec Z.eq_dec) rows v)%nat ->
  bundle rows = OK v.
Proof.
  intros Hv Hb Hl Hn Hmaj.
  destruct rows as [|first rest]; [simpl in Hmaj; lia |].
  inversion Hb as [|? ? Hf Hb']; subst. inversion Hl as [|? ? Hlf Hl']; subst.
  destruct (bundle_columns first rest Hf Hb') as (out & E & Hlen & Hnth).
  - rewrite Hlf. exact Hl'.
  - simpl length in Hn. rewrite Nat2Z.inj_succ in Hn. lia.
  - rewrite E. f_equal.
    apply (nth_ext out v 0 0); [congruence |].
    intros i Hi. rewrite Hlen in Hi. rewrite (Hnth i Hi).
    rewrite Hlf in Hi.
    pose proof (majority_column v i (first :: rest) Hv Hi Hb Hl) as Hc.
    pose proof (bipolar_nth v i Hv Hi) as Hvi.
    unfold sign_nonneg.
    destruct (Z.leb_spec 0 (column_sum i (first :: rest)));
      destruct Hvi as [Ev | Ev]; rewrite Ev in *; lia.
Qed.

Lemma bundle_majority_witness :
  bundle [[1; -1; 1]; [-1; -1; -1]; [1; -1; 1]] = OK [1; -1; 1].
Proof.
  apply bundle_majority.
  - apply bipolarb_spec. reflexivity.
  - repeat constructor; apply bipolarb_spec; reflexivity.
  - repeat constructor.
  - reflexivity.
  - simpl. lia.
Defined.

(** ** Symmetry and overflow of [cosine_similarity] *)

Lemma SFmul_comm x y : SF64mul x y = SF64mul y x.
Proof.
  unfold SF64mul.
  destruct x as [sx|sx| |sx mx ex], y as [sy|sy| |sy my ey];
    cbn [SFmul]; try reflexivity; rewrite (xorb_comm sx sy);
    try reflexivity.
  rewrite Pos.mul_comm, Z.add_comm. reflexivity.
Qed.

Lemma float_mul_comm (x y : float) : (x * y)%float = (y * x)%float.
Proof.
  apply Prim2SF_inj. rewrite !FloatAxioms.mul_spec. apply SFmul_comm.
Qed.

(** X8: [cosine_similarity] is symmetric, to the last bit of the float, and
    fails for [(a, b)] exactly when it fails for [(b, a)]. *)
Theorem cosine_similarity_symmetric (a b : ndarray) :
  cosine_similarity a b = cosine_similarity b a.
Proof.
  unfold cosine_similarity, Np.dot.
  rewrite (Nat.eqb_sym (length b) (length a)).
  destruct (length a =? length b)%nat; [| reflexivity].
  cbn [rbind].
  rewrite (zip_with_comm Z.mul Z.mul_comm a b).
  rewrite (float_mul_comm (Np.norm a) (Np.norm b)). reflexivity.
Qed.

Lemma zero_div_ge_one (y : float) :
  ge_one (Prim2SF y) -> (0 / y)%float = 0%float.
Proof.
  intros Hy. rewrite <- (SF2Prim_Prim2SF (0 / y)).
  rewrite FloatAxioms.div_spec.
  change (Prim2SF 0) with (S754_zero false).
  destruct (Prim2SF y) as [[|]|[|]| |[|] m e]; cbn [ge_one] in Hy;
    try tauto; reflexivity.
Qed.

Lemma wrap8_multiple k : Int.wrap8 (256 * k) = 0.
Proof.
  unfold Int.wrap8, Int.wrap.
  change (2 ^ (8 - 1)) with 128. change (2 ^ 8) with 256.
  rewrite Z.add_comm, Z.mul_comm, Z_mod_plus_full. reflexivity.
Qed.

(** X9: the dot product is kept in an [int8], so it is only known modulo
    256: for a bipolar vector whose length is a positive multiple of 256,
    the similarity with itself comes out as exactly 0.0. *)
Theorem self_similarity_wraps_to_zero (v : ndarray) (k : Z) :
  bipolar v -> 1 <= k -> Z.of_nat (length v) = 256 * k ->
  Z.of_nat (length v) < 2 ^ 63 ->
  cosine_similarity v v = OK 0%float.
Proof.
  intros Hv Hk Hlen Hb. unfold cosine_similarity, Np.dot.
  rewrite Nat.eqb_refl. cbn [rbind].
  rewrite bipolar_dot_self by exact Hv.
  rewrite Hlen, wrap8_multiple. f_equal.
  change (Float.of_Z 0) with 0%float.
  apply zero_div_ge_one.
  rewrite (bipolar_norm v Hv). apply norm_product_ge_one. lia.
Qed.

Lemma self_similarity_wraps_to_zero_witness :
  cosine_similarity (repeat 1 256) (repeat 1 256) = OK 0%float.
Proof.
  apply (self_similarity_wraps_to_zero (repeat 1 256) 1).
  - apply bipolarb_spec. reflexivity.
  - lia.
  - reflexivity.
  - reflexivity.
Defined.

(** ** More on the associative memory *)

Lemma dict_set_set {V} (k : string) (v1 v2 : V) (d : dict V) :
  Dict.set k v2 (Dict.set k v1 d) = Dict.set k v2 d.
Proof.
  induction d as [|[k' x] d IH]; simpl.
  - rewrite String.eqb_refl. reflexivity.
  - destruct (String.eqb k' k) eqn:E; simpl; rewrite E; [reflexivity |].
    rewrite IH. reflexivity.
Qed.

(** X10: the last write wins.  Adding a key twice leaves the memory that the
    second [add] alone would have given. *)
Theorem add_overwrites (key : string) (v1 v2 : ndarray) (m : HDCDictionary) :
  add key v2 (add key v1 m) = add key v2 m.
Proof.
  unfold add. simpl. rewrite dict_set_set. reflexivity.
Qed.

(** X11: [add] keeps the entries in place: an existing key stays where it
    is and no entry is added; a new key goes to the end. *)
Theorem add_keeps_order (key : string) (vector : ndarray) (m : HDCDictionary) :
  (In key (Dict.keys (items m)) ->
   Dict.keys (items (add key vector m)) = Dict.keys (items m))
  /\ (~ In key (Dict.keys (items m)) ->
      Dict.keys (items (add key vector m)) = Dict.keys (items m) ++ [key]).
Proof.
  unfold add. simpl. rewrite dict_keys_set. split; intros H.
  - apply mem_In in H. rewrite H. reflexivity.
  - destruct (mem key (Dict.keys (items m))) eqn:E; [| reflexivity].
    apply mem_In in E. contradiction.
Qed.

Lemma add_keeps_order_witness :
  Dict.keys (items (add "a"%string [1; 1]
                      {| items := [("a"%string, [1; -1]); ("b"%string, [-1; 1])] |}))
  = ["a"%string; "b"%string]
  /\ Dict.keys (items (add "c"%string [1; 1]
                         {| items := [("a"%string, [1; -1]); ("b"%string, [-1; 1])] |}))
     = ["a"%string; "b"%string; "c"%string].
Proof.
  split.
  - apply (proj1 (add_keeps_order "a"%string [1; 1]
             {| items := [("a"%string, [1; -1]); ("b"%string, [-1; 1])] |})).
    simpl. auto.
  - apply (proj2 (add_keeps_order "c"%string [1; 1]
             {| items := [("a"%string, [1; -1]); ("b"%string, [-1; 1])] |})).
    simpl. intuition discriminate.
Defined.

Lemma cosine_similarity_mismatch a b :
  length a <> length b -> cosine_similarity a b = Error DimensionMismatch.
Proof.
  intros H. unfold cosine_similarity.
  rewrite dot_length_mismatch by exact H. reflexivity.
Qed.

Lemma scores_mismatch q (d : dict ndarray) :
  Exists (fun kv => length (snd kv) <> length q) d ->
  scores q d = Error DimensionMismatch.
Proof.
  induction d as [|[k v] d IH]; intros H; [inversion H |].
  simpl.
  destruct (Nat.eq_dec (length q) (length v)) as [E | N].
  - destruct (cosine_similarity_same_length q v E) as [s Es]. rewrite Es.
    cbn [rbind]. rewrite IH; [reflexivity |].
    inversion H as [? ? H0 | ? ? H0]; subst; [simpl in H0; congruence | exact H0].
  - rewrite cosine_similarity_mismatch by exact N. reflexivity.
Qed.

(** X12: [query] succeeds when every stored vector has the query's length,
    and fails with [DimensionMismatch] as soon as one has not; the sort has
    no part in it. *)
Theorem query_length_check
    (sorted : list (string * float) -> list (string * float))
    (q : ndarray) (m : HDCDictionary) :
  (Forall (fun kv => length (snd kv) = length q) (items m) ->
   exists out, query sorted q m = OK out)
  /\ (Exists (fun kv => length (snd kv) <> length q) (items m) ->
      query sorted q m = Error DimensionMismatch).
Proof.
  split; intros H.
  - destruct (scores_total q (items m) H) as (sc & Esc & _).
    eexists. apply query_unfold. exact Esc.
  - unfold query. rewrite scores_mismatch by exact H. reflexivity.
Qed.

Lemma query_length_check_witness :
  query cpython_sorted [1; -1]
    {| items := [("a"%string, [1; 1]); ("b"%string, [1; 1; 1])] |}
  = Error DimensionMismatch.
Proof.
  apply (proj2 (query_length_check cpython_sorted [1; -1]
           {| items := [("a"%string, [1; 1]); ("b"%string, [1; 1; 1])] |})).
  simpl. apply Exists_cons_tl. apply Exists_cons_hd. simpl. lia.
Defined.

Lemma dict_set_In {V} (k : string) (v : V) (d : dict V) :
  In (k, v) (Dict.set k v d).
Proof.
  induction d as [|[k' x] d IH]; simpl; [auto |].
  destruct (String.eqb k' k) eqn:E.
  - apply String.eqb_eq in E. subst. left. reflexivity.
  - right. exact IH.
Qed.

Lemma dict_set_Forall {V} (P : V -> Prop) (k : string) (v : V) (d : dict V) :
  P v -> Forall (fun kv => P (snd kv)) d ->
  Forall (fun kv => P (snd kv)) (Dict.set k v d).
Proof.
  intros Hv. induction d as [|[k' x] d IH]; intros Hd; simpl.
  - constructor; [exact Hv | constructor].
  - inversion Hd as [|? ? Hx Hd']; subst.
    destruct (String.eqb k' k); constructor; auto.
Qed.

Lemma NoDup_keys_unique {V} (d : dict V) k (v v' : V) :
  NoDup (Dict.keys d) -> In (k, v) d -> In (k, v') d -> v = v'.
Proof.
  unfold Dict.keys. induction d as [|[k0 x] d IH]; intros Hnd H1 H2; [contradiction |].
  simpl in Hnd. inversion Hnd as [|? ? Hnot Hnd']; subst.
  destruct H1 as [E1 | H1], H2 as [E2 | H2].
  - congruence.
  - inversion E1; subst. exfalso. apply Hnot.
    apply (in_map fst) in H2. exact H2.
  - inversion E2; subst. exfalso. apply Hnot.
    apply (in_map fst) in H1. exact H1.
  - apply IH; assumption.
Qed.

(** X13: what is added is found.  After [add key vector], a query of the
    vector's length returns exactly one pair for [key], and its score is the
    similarity of the query and [vector] (the other stored vectors having
    that length too), whatever sort rearranges the scores. *)
Theorem query_finds_added
    (sorted : list (string * float) -> list (string * float))
    (q vector : ndarray) (key : string) (m : HDCDictionary) :
  rearranges sorted ->
  NoDup (Dict.keys (items m)) ->
  Forall (fun kv => length (snd kv) = length q) (items m) ->
  length vector = length q ->
  exists out s,
    query sorted q (add key vector m) = OK out
    /\ cosine_similarity q vector = OK s
    /\ In (key, s) out
    /\ forall s', In (key, s') out -> s' = s.
Proof.
  intros Hsorted Hnd Hlen Hv.
  assert (Hlen' : Forall (fun kv => length (snd kv) = length q)
                    (items (add key vector m)))
    by (apply (dict_set_Forall (fun v => length v = length q)); assumption).
  assert (Hnd' : NoDup (Dict.keys (items (add key vector m))))
    by (apply dict_set_NoDup; exact Hnd).
  destruct (scores_total q _ Hlen') as (sc & Esc & Hkeys & Hin).
  destruct (cosine_similarity_same_length q vector (eq_sym Hv)) as [s Es].
  pose proof (Hsorted sc) as Hperm.
  exists (sorted sc), s.
  split; [apply query_unfold; exact Esc |].
  split; [exact Es |].
  split.
  - apply (Permutation_in _ (Permutation_sym Hperm)).
    apply Hin. exists vector. split; [apply dict_set_In | exact Es].
  - intros s' Hs'. apply (Permutation_in _ Hperm) in Hs'.
    apply Hin in Hs'. destruct Hs' as (stored & Hst & Es').
    assert (stored = vector)
      by (eapply NoDup_keys_unique; [exact Hnd' | exact Hst | apply dict_set_In]).
    subst stored. congruence.
Qed.

Lemma query_finds_added_witness :
  exists out s,
    query cpython_sorted [1; 1]
      (add "b"%string [1; -1]
         {| items := [("a"%string, [1; 1]); ("b"%string, [-1; -1])] |})
    = OK out
    /\ cosine_similarity [1; 1] [1; -1] = OK s
    /\ In ("b"%string, s) out
    /\ forall s', In ("b"%string, s') out -> s' = s.
Proof.
  apply query_finds_added.
  - exact cpython_sorted_rearranges.
  - simpl. repeat constructor; simpl; intuition discriminate.
  - simpl. repeat constructor.
  - reflexivity.
Defined.

(** ** The demonstration script *)

Lemma bind_bipolar_ok a b :
  bipolar a -> bipolar b -> length a = length b ->
  bind a b = OK (Np.zip_with Z.mul a b)
  /\ bipolar (Np.zip_with Z.mul a b)
  /\ length (Np.zip_with Z.mul a b) = length a.
Proof.
  intros Ha Hb Hlen.
  destruct (bind_bipolar_product a b Ha Hb Hlen) as [E Hc].
  split; [rewrite bind_same_length by exact Hlen; rewrite E; reflexivity |].
  split; [exact Hc | apply zip_with_length; exact Hlen].
Qed.

Lemma bundle_same_length_ok first rest :
  Forall (fun r => length r = length first) rest ->
  exists out,
    bundle (first :: rest) = OK out /\ bipolar out /\ length out = length first.
Proof.
  intros Hlen. unfold bundle, Np.sum_axis0.
  destruct (forallb_same_length first rest) as [_ Hfb].
  rewrite (Hfb Hlen). cbn [rbind].
  eexists. split; [reflexivity |].
  split; [apply astype_where_bipolar |].
  unfold Np.astype_int8, Np.where_nonneg. rewrite !length_map.
  rewrite fold_zip_with_length; [apply length_map |].
  rewrite length_map. exact Hlen.
Qed.

Section ScriptFacts.

Context {py_rng np_rng : Type} {G : Generators py_rng np_rng}.

Lemma mbind_ok {A B} (c : @M py_rng np_rng A) (k : A -> @M py_rng np_rng B)
    w a w' :
  c w = (OK a, w') -> mbind c k w = k a w'.
Proof. intros E. unfold mbind. rewrite E. reflexivity. Qed.

Lemma mbind_pure_ok {A B} (r : result A) (k : A -> @M py_rng np_rng B) w a :
  r = OK a -> mbind (pure_call r) k w = k a w.
Proof. intros ->. reflexivity. Qed.

Lemma random_hypervector_default (w : world py_rng np_rng) :
  exists v w',
    random_hypervector DIMENSION w = (OK v, w')
    /\ length v = Z.to_nat DIMENSION
    /\ bipolar v.
Proof.
  destruct (random_hypervector_nonneg DIMENSION w) as (v & w' & E & L & B).
  - unfold DIMENSION. lia.
  - exists v, w'. split; [exact E |]. split; [| exact B].
    rewrite <- L. rewrite Nat2Z.id. reflexivity.
Qed.

End ScriptFacts.

(** X14: the demonstration script runs through, whatever the generator
    draws and whatever sort rearranges the scores: the six vectors are
    generated, the record and the query vector are built, and the query
    returns exactly one pair, for ["farm_123"], with a score that is a
    number. *)
Theorem main_returns_one_result
    {py_rng np_rng : Type} {G : Generators py_rng np_rng}
    (sorted : list (string * float) -> list (string * float))
    (w : world py_rng np_rng) :
  rearranges sorted ->
  exists s w',
    main sorted w = (OK [("farm_123"%string, s)], w')
    /\ PrimFloat.is_nan s = false.
Proof.
  intros Hsorted. unfold main.
  rewrite (mbind_ok (set_seed 42) _ w tt
             {| py_state := random_seed 42; np_state := np_random_seed 42 |})
    by reflexivity.
  destruct (random_hypervector_default
              {| py_state := random_seed 42; np_state := np_random_seed 42 |})
    as (crop & w1 & E1 & L1 & B1).
  rewrite (mbind_ok _ _ _ _ _ E1).
  destruct (random_hypervector_default w1) as (status & w2 & E2 & L2 & B2).
  rewrite (mbind_ok _ _ _ _ _ E2).
  destruct (random_hypervector_default w2) as (region & w3 & E3 & L3 & B3).
  rewrite (mbind_ok _ _ _ _ _ E3).
  destruct (random_hypervector_default w3) as (cannabis & w4 & E4 & L4 & B4).
  rewrite (mbind_ok _ _ _ _ _ E4).
  destruct (random_hypervector_default w4) as (approved & w5 & E5 & L5 & B5).
  rewrite (mbind_ok _ _ _ _ _ E5).
  destruct (random_hypervector_default w5) as (chiang_mai & w6 & E6 & L6 & B6).
  rewrite (mbind_ok _ _ _ _ _ E6).
  destruct (bind_bipolar_ok crop cannabis B1 B4) as (P1 & BP1 & LP1);
    [congruence |].
  destruct (bind_bipolar_ok status approved B2 B5) as (P2 & BP2 & LP2);
    [congruence |].
  destruct (bind_bipolar_ok region chiang_mai B3 B6) as (P3 & BP3 & LP3);
    [congruence |].
  rewrite (mbind_pure_ok _ _ _ _ P1), (mbind_pure_ok _ _ _ _ P2),
    (mbind_pure_ok _ _ _ _ P3).
  destruct (bundle_same_length_ok (Np.zip_with Z.mul crop cannabis)
              [Np.zip_with Z.mul status approved;
               Np.zip_with Z.mul region chiang_mai])
    as (profile & EP & BPr & LPr);
    [repeat constructor; congruence |].
  rewrite (mbind_pure_ok _ _ _ _ EP). cbv zeta.
  rewrite (mbind_pure_ok _ _ _ _ P1), (mbind_pure_ok _ _ _ _ P3).
  destruct (bundle_same_length_ok (Np.zip_with Z.mul crop cannabis)
              [Np.zip_with Z.mul region chiang_mai])
    as (qv & EQ & BQ & LQ);
    [repeat constructor; congruence |].
  rewrite (mbind_pure_ok _ _ _ _ EQ).
  destruct (bipolar_similarity_not_nan qv profile BQ BPr) as (s & Es & Hs).
  - congruence.
  - rewrite LQ, LP1, L1. unfold DIMENSION.
    rewrite Z2Nat.id by lia. lia.
  - exists s, w6. split; [| exact Hs].
    unfold pure_call, query, add. simpl. rewrite Es. cbn [rbind].
    rewrite (Permutation_length_1_inv
               (Permutation_sym (Hsorted [("farm_123"%string, s)]))).
    reflexivity.
Qed.

Lemma main_returns_one_result_witness :
  exists s w',
    @main Z Z lcg cpython_sorted {| py_state := 0; np_state := 0 |}
    = (OK [("farm_123"%string, s)], w')
    /\ PrimFloat.is_nan s = false.
Proof.
  apply (@main_returns_one_result Z Z lcg cpython_sorted
           {| py_state := 0; np_state := 0 |}).
  exact cpython_sorted_rearranges.
Defined.

(** ** Confusion-matrix metrics *)

Import Metrics.

Lemma fold_left_perm {A B} (f : A -> B -> A) :
  (forall a x y, f (f a x) y = f (f a y) x) ->
  forall l l', Permutation l l' ->
  forall a, fold_left f l a = fold_left f l' a.
Proof.
  intros Hf l l' Hp.
  induction Hp as [|x l l' _ IH|x y l|l l' l'' _ IH1 _ IH2]; intros a; simpl.
  - reflexivity.
  - apply IH.
  - rewrite Hf. reflexivity.
  - rewrite IH1. apply IH2.
Qed.

Lemma count_row_right_comm c r1 r2 :
  count_row (count_row c r1) r2 = count_row (count_row c r2) r1.
Proof.
  destruct c as [[[a b] c] d], r1 as [[|] [|]], r2 as [[|] [|]]; reflexivity.
Qed.

Lemma fold_count_rows rows : forall a b c d,
  fold_left count_row rows (a, b, c, d)
  = (a + count_rows (fun r => fst r && snd r) rows,
     b + count_rows (fun r => negb (fst r) && snd r) rows,
     c + count_rows (fun r => negb (fst r) && negb (snd r)) rows,
     d + count_rows (fun r => fst r && negb (snd r)) rows).
Proof.
  unfold count_rows.
  induction rows as [|[[|] [|]] rows IH]; intros a b c d; simpl fold_left;
    [cbn [filter length Z.of_nat]; rewrite !Z.add_0_r; reflexivity
    | rewrite IH; cbn [filter fst snd andb negb length];
      rewrite ?Nat2Z.inj_succ;
      repeat match goal with |- (_, _) = (_, _) => f_equal end; lia ..].
Qed.

Lemma count_rows_nonneg p rows : 0 <= count_rows p rows.
Proof. unfold count_rows. lia. Qed.

Lemma count_rows_le p rows : count_rows p rows <= Z.of_nat (length rows).
Proof.
  unfold count_rows. apply Nat2Z.inj_le. apply filter_length_le.
Qed.

Lemma count_rows_partition rows :
  count_rows (fun r => fst r && snd r) rows
  + count_rows (fun r => negb (fst r) && snd r) rows
  + count_rows (fun r => negb (fst r) && negb (snd r)) rows
  + count_rows (fun r => fst r && negb (snd r)) rows
  = Z.of_nat (length rows).
Proof.
  unfold count_rows.
  induction rows as [|[[|] [|]] rows IH]; cbn [filter fst snd andb negb length];
    rewrite ?Nat2Z.inj_succ; lia.
Qed.

Lemma count_rows_split (p q : bool * bool -> bool) rows :
  count_rows (fun r => p r && q r) rows + count_rows (fun r => p r && negb (q r)) rows
  = count_rows p rows.
Proof.
  unfold count_rows.
  induction rows as [|r rows IH]; cbn [filter length]; [reflexivity |].
  destruct (p r), (q r); cbn [andb negb length]; rewrite ?Nat2Z.inj_succ; lia.
Qed.

Lemma count_rows_none p rows :
  Forall (fun r => p r = false) rows -> count_rows p rows = 0.
Proof.
  unfold count_rows. induction 1 as [|r rows Hr _ IH]; [reflexivity |].
  cbn [filter]. rewrite Hr. exact IH.
Qed.

Lemma int_truediv_guarded a b :
  (if negb (b =? 0) then Py.int_truediv a b else Return 0%float)
  = Return (guarded_ratio a b).
Proof.
  unfold Py.int_truediv, guarded_ratio. destruct (b =? 0); reflexivity.
Qed.

Lemma float_truediv_guarded p r :
  (if Py.float_bool (p + r)
   then Py.float_truediv (2 * p * r) (p + r)
   else Return 0%float)
  = Return (guarded_f1 p r).
Proof.
  unfold Py.float_bool, Py.float_truediv, guarded_f1.
  destruct (p + r =? 0)%float; reflexivity.
Qed.

(** What [compute_metrics] returns, the guards resolved. *)
Lemma compute_metrics_value name rows :
  let tp := count_rows (fun r => fst r && snd r) rows in
  let fp := count_rows (fun r => negb (fst r) && snd r) rows in
  let tn := count_rows (fun r => negb (fst r) && negb (snd r)) rows in
  let fn := count_rows (fun r => fst r && negb (snd r)) rows in
  compute_metrics name rows
  = Return {| name := name; total := tp + fp + tn + fn;
              tp := tp; fp := fp; tn := tn; fn := fn;
              precision := guarded_ratio tp (tp + fp);
              recall := guarded_ratio tp (tp + fn);
              f1 := guarded_f1 (guarded_ratio tp (tp + fp))
                               (guarded_ratio tp (tp + fn));
              fpr := guarded_ratio fp (fp + tn);
              fnr := guarded_ratio fn (fn + tp) |}.
Proof.
  intros tp fp tn fn. unfold compute_metrics.
  rewrite fold_count_rows. cbn [Z.add].
  fold tp fp tn fn.
  rewrite !int_truediv_guarded. cbn [obind].
  rewrite float_truediv_guarded. reflexivity.
Qed.

(** X15: [compute_metrics] never raises, not on an empty list either: every
    division is guarded.  The four counters are not negative and add up to
    the number of rows, [tp + fn] is the number of rows labelled positive
    and [tp + fp] the number predicted positive. *)
Theorem compute_metrics_counts (run : string) (rows : list (bool * bool)) :
  exists r,
    compute_metrics run rows = Return r
    /\ name r = run
    /\ total r = Z.of_nat (length rows)
    /\ tp r + fp r + tn r + fn r = total r
    /\ 0 <= tp r /\ 0 <= fp r /\ 0 <= tn r /\ 0 <= fn r
    /\ tp r + fn r = count_rows fst rows
    /\ tp r + fp r = count_rows snd rows.
Proof.
  eexists. split; [apply compute_metrics_value |]. cbn [name total tp fp tn fn].
  split; [reflexivity |].
  split; [apply count_rows_partition |].
  split; [reflexivity |].
  repeat (split; [apply count_rows_nonneg |]).
  split.
  - apply (count_rows_split fst snd).
  - rewrite <- (count_rows_split snd fst). f_equal;
      unfold count_rows; f_equal; f_equal; apply filter_ext;
      intros [[|] [|]]; reflexivity.
Qed.

Lemma guarded_ratio_zero b : 0 <= b < 2 ^ 63 -> guarded_ratio 0 b = 0%float.
Proof.
  intros Hb. unfold guarded_ratio.
  destruct (Z.eqb_spec b 0) as [_ | Hne]; [reflexivity |].
  change (Float.of_Z 0) with 0%float.
  apply zero_div_ge_one. apply of_Z_ge_one. lia.
Qed.

(** X16: without a true positive, precision, recall and F1 are all exactly
    0.0 (the list of rows being shorter than [2^63]). *)
Theorem no_true_positive_scores_zero (run : string) (rows : list (bool * bool)) :
  Forall (fun r => fst r && snd r = false) rows ->
  Z.of_nat (length rows) < 2 ^ 63 ->
  exists r,
    compute_metrics run rows = Return r
    /\ tp r = 0
    /\ precision r = 0%float /\ recall r = 0%float /\ f1 r = 0%float.
Proof.
  intros Hno Hlen.
  eexists. split; [apply compute_metrics_value |].
  cbn [tp precision recall f1].
  rewrite (count_rows_none _ rows Hno). cbn [Z.add].
  pose proof (count_rows_nonneg (fun r => negb (fst r) && snd r) rows).
  pose proof (count_rows_le (fun r => negb (fst r) && snd r) rows).
  pose proof (count_rows_nonneg (fun r => fst r && negb (snd r)) rows).
  pose proof (count_rows_le (fun r => fst r && negb (snd r)) rows).
  rewrite !guarded_ratio_zero by lia.
  repeat split; reflexivity.
Qed.

Lemma no_true_positive_scores_zero_witness :
  exists r,
    compute_metrics "baseline" [(true, false); (false, true); (false, false)]
    = Return r
    /\ tp r = 0
    /\ precision r = 0%float /\ recall r = 0%float /\ f1 r = 0%float.
Proof.
  apply no_true_positive_scores_zero.
  - repeat constructor.
  - reflexivity.
Defined.

(** X17: with every prediction right, there is no false positive and no
    false negative, and both error rates are exactly 0.0. *)
Theorem perfect_predictions_no_error (run : string) (rows : list (bool * bool)) :
  Forall (fun r => fst r = snd r) rows ->
  Z.of_nat (length rows) < 2 ^ 63 ->
  exists r,
    compute_metrics run rows = Return r
    /\ fp r = 0 /\ fn r = 0
    /\ fpr r = 0%float /\ fnr r = 0%float.
Proof.
  intros Hok Hlen.
  eexists. split; [apply compute_metrics_value |].
  cbn [fp fn fpr fnr].
  assert (Hfp : count_rows (fun r => negb (fst r) && snd r) rows = 0).
  { apply count_rows_none. eapply Forall_impl; [| exact Hok].
    intros [[|] [|]]; simpl; congruence. }
  assert (Hfn : count_rows (fun r => fst r && negb (snd r)) rows = 0).
  { apply count_rows_none. eapply Forall_impl; [| exact Hok].
    intros [[|] [|]]; simpl; congruence. }
  rewrite Hfp, Hfn. cbn [Z.add].
  pose proof (count_rows_nonneg (fun r => negb (fst r) && negb (snd r)) rows).
  pose proof (count_rows_le (fun r => negb (fst r) && negb (snd r)) rows).
  pose proof (count_rows_nonneg (fun r => fst r && snd r) rows).
  pose proof (count_rows_le (fun r => fst r && snd r) rows).
  rewrite !guarded_ratio_zero by lia.
  repeat split; reflexivity.
Qed.

Lemma perfect_predictions_no_error_witness :
  exists r,
    compute_metrics "oracle" [(true, true); (false, false); (true, true)]
    = Return r
    /\ fp r = 0 /\ fn r = 0
    /\ fpr r = 0%float /\ fnr r = 0%float.
Proof.
  apply perfect_predictions_no_error.
  - repeat constructor.
  - reflexivity.
Defined.

(** X18: the metrics do not depend on the order of the rows. *)
Theorem compute_metrics_order_irrelevant (run : string)
    (rows rows' : list (bool * bool)) :
  Permutation rows rows' ->
  compute_metrics run rows = compute_metrics run rows'.
Proof.
  intros Hp. unfold compute_metrics.
  rewrite (fold_left_perm count_row count_row_right_comm rows rows' Hp).
  reflexivity.
Qed.

Lemma compute_metrics_order_irrelevant_witness :
  compute_metrics "run" [(true, false); (true, true); (false, false)]
  = compute_metrics "run" [(false, false); (true, false); (true, true)].
Proof.
  apply compute_metrics_order_irrelevant.
  apply Permutation_sym.
  apply (Permutation_cons_append [(true, false); (true, true)] (false, false)).
Defined.

(** ** Run arguments *)

Lemma split_once_none c s : split_once c s = None <-> occurs c s = false.
Proof.
  induction s as [|a s IH]; simpl; [tauto |].
  destruct (Ascii.eqb a c); simpl; [split; discriminate |].
  destruct (split_once c s) as [[l r] |]; split; intros H;
    try discriminate; try reflexivity.
  - apply IH in H. discriminate.
  - apply IH. reflexivity.
Qed.

Lemma split_once_some c s l r :
  split_once c s = Some (l, r) ->
  s = String.append l (String c r) /\ occurs c l = false.
Proof.
  revert l. induction s as [|a s IH]; intros l H; simpl in H; [discriminate |].
  destruct (Ascii.eqb a c) eqn:E.
  - apply Ascii.eqb_eq in E. subst a. injection H as <- <-. split; reflexivity.
  - destruct (split_once c s) as [[l' r'] |]; [| discriminate].
    injection H as <- <-. destruct (IH l' eq_refl) as [-> Hl].
    split; [reflexivity |]. simpl. rewrite E. exact Hl.
Qed.

Lemma split_once_append c l r :
  occurs c l = false ->
  split_once c (String.append l (String c r)) = Some (l, r).
Proof.
  induction l as [|a l IH]; simpl; intros H.
  - rewrite Ascii.eqb_refl. reflexivity.
  - apply orb_false_iff in H. destruct H as [E H].
    rewrite E, (IH H). reflexivity.
Qed.

(** X19: what [parse_run_argument] returns is the argument cut at its first
    ["="]: the name is not empty and holds no ["="], the argument is the
    name, ["="] and the rest, and the path made of the rest exists. *)
Theorem parse_run_argument_splits
    (path : Type) (Path : string -> path) (path_str : path -> string)
    (path_exists : path -> bool) (arg run : string) (p : path) :
  parse_run_argument path Path path_str path_exists arg = Return (run, p) ->
  exists raw,
    arg = String.append run (String equals_sign raw)
    /\ run <> ""%string
    /\ occurs equals_sign run = false
    /\ p = Path raw
    /\ path_exists p = true.
Proof.
  unfold parse_run_argument. intros H.
  destruct (split_once equals_sign arg) as [[l r] |] eqn:E; [| discriminate].
  destruct (String.eqb_spec l "") as [_ | Hne]; [discriminate |].
  destruct (path_exists (Path r)) eqn:Ex; [| discriminate].
  injection H as <- <-.
  destruct (split_once_some _ _ _ _ E) as [-> Hl].
  exists r. repeat split; assumption.
Qed.

Lemma parse_run_argument_splits_witness :
  exists raw,
    "hdc=out/a=b.csv"%string = String.append "hdc" (String equals_sign raw)
    /\ "hdc"%string <> ""%string
    /\ occurs equals_sign "hdc" = false
    /\ "out/a=b.csv"%string = raw
    /\ true = true.
Proof.
  apply (parse_run_argument_splits string (fun s => s) (fun s => s)
           (fun _ => true) "hdc=out/a=b.csv"%string "hdc"%string
           "out/a=b.csv"%string).
  reflexivity.
Defined.

(** X20: a name, ["="] and a path are parsed back into the name and the
    path, when the name is not empty and holds no ["="] and the file
    exists; the path may hold ["="]. *)
Theorem parse_run_argument_round_trip
    (path : Type) (Path : string -> path) (path_str : path -> string)
    (path_exists : path -> bool) (run raw : string) :
  run <> ""%string -> occurs equals_sign run = false ->
  path_exists (Path raw) = true ->
  parse_run_argument path Path path_str path_exists
    (String.append run (String equals_sign raw))
  = Return (run, Path raw).
Proof.
  intros Hne Hocc Hex. unfold parse_run_argument.
  rewrite split_once_append by exact Hocc.
  destruct (String.eqb_spec run "") as [E | _]; [contradiction |].
  rewrite Hex. reflexivity.
Qed.

Lemma parse_run_argument_round_trip_witness :
  parse_run_argument string (fun s => s) (fun s => s) (fun _ => true)
    (String.append "hdc" (String equals_sign "out/a=b.csv"%string))
  = Return ("hdc"%string, "out/a=b.csv"%string).
Proof.
  apply (parse_run_argument_round_trip string (fun s => s) (fun s => s)
           (fun _ => true) "hdc"%string "out/a=b.csv"%string).
  - discriminate.
  - reflexivity.
  - reflexivity.
Defined.

(** X21: an argument without ["="] is refused as ill-formed, and one that
    starts with ["="] for its empty name, in both cases whatever files
    exist. *)
Theorem parse_run_argument_rejects
    (path : Type) (Path : string -> path) (path_str : path -> string)
    (path_exists : path -> bool) (arg : string) :
  (occurs equals_sign arg = false ->
   parse_run_argument path Path path_str path_exists arg
   = Raise (ValueError "Run argument must be in NAME=PATH format."))
  /\ (forall raw,
        parse_run_argument path Path path_str path_exists
          (String equals_sign raw)
        = Raise (ValueError "Run name cannot be empty.")).
Proof.
  unfold parse_run_argument. split.
  - intros H. apply split_once_none in H. rewrite H. reflexivity.
  - intros raw. reflexivity.
Qed.

Lemma parse_run_argument_rejects_witness :
  parse_run_argument string (fun s => s) (fun s => s) (fun _ => true)
    "results.csv"%string
  = Raise (ValueError "Run argument must be in NAME=PATH format.").
Proof.
  apply (proj1 (parse_run_argument_rejects string (fun s => s) (fun s => s)
                  (fun _ => true) "results.csv"%string)).
  reflexivity.
Defined.

(** ** Order of the strings *)

Lemma ascii_compare_lt_trans a b c :
  Ascii.compare a b = Lt -> Ascii.compare b c = Lt -> Ascii.compare a c = Lt.
Proof.
  unfold Ascii.compare. rewrite !N.compare_lt_iff. apply N.lt_trans.
Qed.

Lemma ascii_compare_refl a : Ascii.compare a a = Eq.
Proof. unfold Ascii.compare. apply N.compare_refl. Qed.

Lemma string_compare_refl s : String.compare s s = Eq.
Proof.
  induction s as [|a s IH]; simpl; [reflexivity |].
  rewrite ascii_compare_refl. exact IH.
Qed.

Lemma string_compare_lt_trans : forall a b c,
  String.compare a b = Lt -> String.compare b c = Lt -> String.compare a c = Lt.
Proof.
  induction a as [|x a IH]; intros [|y b] [|z c]; simpl; try discriminate; auto.
  destruct (Ascii.compare x y) eqn:Exy; try discriminate;
    destruct (Ascii.compare y z) eqn:Eyz; try discriminate; intros H1 H2.
  - apply Ascii.compare_eq_iff in Exy, Eyz. subst.
    rewrite ascii_compare_refl. eapply IH; eassumption.
  - apply Ascii.compare_eq_iff in Exy. subst. rewrite Eyz. reflexivity.
  - apply Ascii.compare_eq_iff in Eyz. subst. rewrite Exy. reflexivity.
  - rewrite (ascii_compare_lt_trans x y z Exy Eyz). reflexivity.
Qed.

Lemma string_leb_trans a b c :
  String.leb a b = true -> String.leb b c = true -> String.leb a c = true.
Proof.
  unfold String.leb.
  destruct (String.compare a b) eqn:Eab; try discriminate;
    destruct (String.compare b c) eqn:Ebc; try discriminate; intros _ _.
  - apply String.compare_eq_iff in Eab, Ebc. subst.
    rewrite string_compare_refl. reflexivity.
  - apply String.compare_eq_iff in Eab. subst. rewrite Ebc. reflexivity.
  - apply String.compare_eq_iff in Ebc. subst. rewrite Eab. reflexivity.
  - rewrite (string_compare_lt_trans a b c Eab Ebc). reflexivity.
Qed.

Lemma string_ltb_leb a b : String.ltb a b = true -> String.leb a b = true.
Proof.
  unfold String.ltb, String.leb.
  destruct (String.compare a b); simpl; congruence.
Qed.

Lemma string_not_ltb_leb a b : String.ltb a b = false -> String.leb b a = true.
Proof.
  unfold String.ltb, String.leb. rewrite (String.compare_antisym b a).
  destruct (String.compare a b); simpl; congruence.
Qed.

(** ** The ascending stable sort *)

Section PySortedAscendingFacts.

Context {A : Type} (lt le : A -> A -> bool).
Hypothesis le_trans : forall a b c, le a b = true -> le b c = true -> le a c = true.
Hypothesis lt_le : forall a b, lt a b = true -> le a b = true.
Hypothesis not_lt_le : forall a b, lt a b = false -> le b a = true.

Lemma insert_asc_perm x l : Permutation (insert_asc lt x l) (x :: l).
Proof.
  induction l as [|y l IH]; simpl; [apply Permutation_refl |].
  destruct (lt y x); [| apply Permutation_refl].
  apply perm_trans with (y :: x :: l);
    [apply perm_skip; exact IH | apply perm_swap].
Qed.

Lemma sorted_asc_perm l : Permutation (sorted_asc lt l) l.
Proof.
  induction l as [|x l IH]; simpl; [apply perm_nil |].
  apply perm_trans with (x :: sorted_asc lt l);
    [apply insert_asc_perm | apply perm_skip; exact IH].
Qed.

Lemma insert_asc_sorted x l :
  StronglySorted (fun a b => le a b = true) l ->
  StronglySorted (fun a b => le a b = true) (insert_asc lt x l).
Proof.
  intros Hs. induction Hs as [|y l Hs IH Hy]; simpl.
  - repeat constructor.
  - destruct (lt y x) eqn:E.
    + constructor; [exact IH |].
      apply (Permutation_Forall (Permutation_sym (insert_asc_perm x l))).
      constructor; [apply lt_le; exact E | exact Hy].
    + assert (Hxy : le x y = true) by (apply not_lt_le; exact E).
      constructor; [constructor; assumption |].
      constructor; [exact Hxy |].
      eapply Forall_impl; [| exact Hy].
      intros z Hz. eapply le_trans; eassumption.
Qed.

Lemma sorted_asc_sorted l :
  StronglySorted (fun a b => le a b = true) (sorted_asc lt l).
Proof.
  induction l as [|x l IH]; simpl; [constructor |].
  apply insert_asc_sorted. exact IH.
Qed.

End PySortedAscendingFacts.

(** ** Counters *)

Import Dataset.

Lemma dict_get_In {V} (d : dict V) k v :
  NoDup (Dict.keys d) -> (Dict.get k d = Some v <-> In (k, v) d).
Proof.
  unfold Dict.keys. induction d as [|[k' x] d IH]; intros Hnd; simpl.
  - split; [discriminate | contradiction].
  - inversion Hnd as [|? ? Hnot Hnd']; subst.
    destruct (String.eqb_spec k' k) as [-> | Hne].
    + split.
      * intros H. injection H as ->. left. reflexivity.
      * intros [H | H]; [congruence |].
        exfalso. apply Hnot. apply (in_map fst) in H. exact H.
    + rewrite (IH Hnd'). split; [auto |].
      intros [H | H]; [congruence | exact H].
Qed.

Lemma counter_NoDup l : forall d,
  NoDup (Dict.keys d) -> NoDup (Dict.keys (fold_left counter_incr l d)).
Proof.
  induction l as [|x l IH]; intros d Hd; simpl; [exact Hd |].
  apply IH. unfold counter_incr. apply dict_set_NoDup. exact Hd.
Qed.

Lemma counter_get l : forall d x,
  Dict.get x (fold_left counter_incr l d)
  = match Dict.get x d with
    | Some n => Some (n + occurrences l x)
    | None => if occurrences l x =? 0 then None else Some (occurrences l x)
    end.
Proof.
  unfold occurrences.
  induction l as [|y l IH]; intros d x; cbn [fold_left count_occ].
  - destruct (Dict.get x d); [rewrite Z.add_0_r |]; reflexivity.
  - rewrite IH. unfold counter_incr.
    destruct (string_dec y x) as [-> | Hne].
    + rewrite dict_get_set_same, Nat2Z.inj_succ.
      destruct (Dict.get x d) as [n |].
      * f_equal. lia.
      * destruct (Z.eqb_spec (Z.succ (Z.of_nat (count_occ string_dec l x))) 0);
          [lia | f_equal; lia].
    + rewrite dict_get_set_other by congruence. reflexivity.
Qed.

(** The items of a counter are the elements with the number of times each
    occurs. *)
Lemma counter_items l x n :
  In (x, n) (Counter l) <-> (In x l /\ n = occurrences l x).
Proof.
  unfold Counter.
  rewrite <- dict_get_In by (apply counter_NoDup; constructor).
  rewrite counter_get. simpl. unfold occurrences.
  destruct (Z.eqb_spec (Z.of_nat (count_occ string_dec l x)) 0) as [E | N].
  - split; [discriminate |]. intros [Hin _].
    apply (count_occ_In string_dec) in Hin. lia.
  - split.
    + intros H. injection H as <-. split; [| reflexivity].
      apply (count_occ_In string_dec). lia.
    + intros [_ ->]. reflexivity.
Qed.

(** ** [collapse] *)

Section CollapseFacts.

Variables (strip : string -> string)
          (parse_float : string -> option float)
          (format_mean : list float -> string).

Lemma split_numeric_eq l :
  split_numeric parse_float l
  = (numeric_values parse_float l,
     filter (fun v => match parse_float v with None => true | Some _ => false end) l).
Proof.
  induction l as [|v l IH]; simpl; [reflexivity |].
  rewrite IH. destruct (parse_float v); reflexivity.
Qed.

Lemma split_numeric_lengths l :
  (length (numeric_values parse_float l)
   + length (filter (fun v => match parse_float v with None => true | Some _ => false end) l)
   = length l)%nat.
Proof.
  induction l as [|v l IH]; simpl; [reflexivity |].
  destruct (parse_float v); simpl; lia.
Qed.

Lemma most_common_perm (c : dict Z) : Permutation (most_common c) c.
Proof. apply sorted_reverse_perm. Qed.

Lemma most_common_sorted (c : dict Z) :
  StronglySorted (fun a b : string * Z => (snd b <=? snd a) = true) (most_common c).
Proof.
  apply (sorted_reverse_sorted Z.ltb snd Z.leb (fun _ => True)).
  - intros a b d H1 H2. apply Z.leb_le in H1, H2. apply Z.leb_le. lia.
  - intros a b H. apply Z.ltb_lt in H. apply Z.leb_le. lia.
  - intros a b _ _ H. apply Z.ltb_ge in H. apply Z.leb_le. lia.
  - apply Forall_forall. intros; exact I.
Qed.

(** The pick among the values that [float] does not read: a most frequent
    one, and the smallest of the most frequent. *)
Lemma collapse_picks_mode values :
  non_numeric_values strip parse_float values <> [] ->
  exists c,
    collapse strip parse_float format_mean values = Return c
    /\ In c (non_numeric_values strip parse_float values)
    /\ (forall v, In v (non_numeric_values strip parse_float values) ->
          occurrences (non_numeric_values strip parse_float values) v
          <= occurrences (non_numeric_values strip parse_float values) c)
    /\ (forall v, In v (non_numeric_values strip parse_float values) ->
          occurrences (non_numeric_values strip parse_float values) v
          = occurrences (non_numeric_values strip parse_float values) c ->
          String.leb c v = true).
Proof.
  unfold non_numeric_values, collapse.
  set (cl := cleaned strip values). clearbody cl.
  rewrite split_numeric_eq.
  pose proof (split_numeric_lengths cl) as Hlen.
  set (nn := filter _ cl) in *. clearbody nn. intros Hnn.
  assert (Hx0 : exists x0, In x0 nn)
    by (destruct nn as [|x0 nn']; [contradiction | exists x0; left; reflexivity]).
  destruct Hx0 as [x0 Hx0].
  assert (Hnne : is_empty nn = false) by (destruct nn; [contradiction | reflexivity]).
  assert (Hcl : is_empty cl = false)
    by (destruct cl; [destruct nn; [contradiction | simpl in Hlen; lia] | reflexivity]).
  assert (Hcond : (length (numeric_values parse_float cl) =? length cl)%nat = false).
  { apply Nat.eqb_neq. destruct nn; [contradiction | simpl in Hlen; lia]. }
  rewrite Hcl, Hcond, andb_false_r, Hnne. cbn [negb].
  (* the counter and its sorted items *)
  pose proof (most_common_perm (Counter nn)) as Hperm.
  pose proof (most_common_sorted (Counter nn)) as Hsort.
  assert (Hitems : forall x n, In (x, n) (most_common (Counter nn))
                               <-> In x nn /\ n = occurrences nn x).
  { intros x n. rewrite <- counter_items. split; apply Permutation_in;
      [exact Hperm | apply Permutation_sym; exact Hperm]. }
  destruct (most_common (Counter nn)) as [|[k0 mx] rest] eqn:Ehigh.
  { exfalso. assert (H : In (x0, occurrences nn x0) []).
    { apply Hitems. split; [exact Hx0 | reflexivity]. }
    contradiction. }
  cbn [first_item obind snd].
  assert (Hmax : forall x n, In (x, n) ((k0, mx) :: rest) -> n <= mx).
  { intros x n [E | Hin]; [inversion E; lia |].
    inversion Hsort as [|? ? _ Hall]; subst.
    rewrite Forall_forall in Hall. specialize (Hall _ Hin).
    apply Z.leb_le in Hall. exact Hall. }
  set (cands := map fst (filter (fun ic : string * Z => snd ic =? mx) ((k0, mx) :: rest))).
  assert (Hcands : forall x, In x cands <-> In x nn /\ occurrences nn x = mx).
  { intros x. unfold cands. rewrite in_map_iff. split.
    - intros ([x' n] & Ex & Hin). simpl in Ex. subst x'.
      apply filter_In in Hin. destruct Hin as [Hin Hn].
      apply Z.eqb_eq in Hn. simpl in Hn. subst n.
      apply Hitems in Hin. destruct Hin as [Hx ->]. auto.
    - intros [Hx Hn]. exists (x, mx). split; [reflexivity |].
      apply filter_In. split; [| apply Z.eqb_refl].
      apply Hitems. auto. }
  pose proof (sorted_asc_perm String.ltb cands) as Hcp.
  pose proof (sorted_asc_sorted String.ltb String.leb string_leb_trans
                string_ltb_leb (fun a b => string_not_ltb_leb a b) cands) as Hcs.
  assert (Hk0 : In k0 cands).
  { apply Hcands.
    assert (H0 : In (k0, mx) ((k0, mx) :: rest)) by (left; reflexivity).
    apply Hitems in H0. destruct H0 as [H0 ->]. auto. }
  destruct (sorted_asc String.ltb cands) as [|c sorted] eqn:Esorted.
  { exfalso. apply (Permutation_in _ (Permutation_sym Hcp)) in Hk0.
    contradiction. }
  cbn [first_item].
  assert (Hc : In c cands)
    by (apply (Permutation_in _ Hcp); left; reflexivity).
  apply Hcands in Hc. destruct Hc as [Hc Hocc].
  exists c. split; [reflexivity |]. split; [exact Hc |]. split.
  - intros v Hv. rewrite Hocc.
    apply (Hmax v). apply Hitems. auto.
  - intros v Hv Hveq.
    assert (Hvc : In v (c :: sorted)).
    { apply (Permutation_in _ (Permutation_sym Hcp)).
      apply Hcands. split; [exact Hv | congruence]. }
    destruct Hvc as [<- | Hvs].
    + unfold String.leb. rewrite string_compare_refl. reflexivity.
    + inversion Hcs as [|? ? _ Hall]; subst.
      rewrite Forall_forall in Hall. apply Hall. exact Hvs.
Qed.

End CollapseFacts.

(** X22: [collapse] never raises and never reaches its last [return]: no
    value left after stripping gives [""]; values that [float] reads
    throughout give the formatted mean; and as soon as one value is not
    read, the result is one of the values that are not read. *)
Theorem collapse_cases
    (strip : string -> string) (parse_float : string -> option float)
    (format_mean : list float -> string) (values : list string) :
  (cleaned strip values = [] ->
   collapse strip parse_float format_mean values = Return ""%string)
  /\ (cleaned strip values <> [] ->
      non_numeric_values strip parse_float values = [] ->
      collapse strip parse_float format_mean values
      = Return (format_mean (numeric_values parse_float (cleaned strip values))))
  /\ (non_numeric_values strip parse_float values <> [] ->
      exists c,
        collapse strip parse_float format_mean values = Return c
        /\ In c (non_numeric_values strip parse_float values)).
Proof.
  split; [| split].
  - intros H. unfold collapse. rewrite H. reflexivity.
  - unfold non_numeric_values, collapse. intros Hcl Hnn.
    pose proof (split_numeric_lengths parse_float (cleaned strip values)) as Hlen.
    rewrite split_numeric_eq, Hnn. rewrite Hnn in Hlen.
    destruct (cleaned strip values) as [|v cl] eqn:E; [contradiction |].
    cbn [is_empty]. rewrite <- E in *.
    simpl in Hlen. rewrite Nat.add_0_r in Hlen. rewrite Hlen, Nat.eqb_refl.
    destruct (numeric_values parse_float (cleaned strip values)) eqn:En;
      [rewrite E in Hlen; discriminate | reflexivity].
  - intros H.
    destruct (collapse_picks_mode strip parse_float format_mean values H)
      as (c & Ec & Hc & _).
    exists c. auto.
Qed.

Lemma collapse_cases_witness :
  collapse (fun s => s)
    (fun s => if String.eqb s "7" then Some 7%float else None)
    (fun _ => "7.000000"%string) [""%string; ""%string]
  = Return ""%string.
Proof.
  apply (proj1 (collapse_cases (fun s => s)
                  (fun s => if String.eqb s "7" then Some 7%float else None)
                  (fun _ => "7.000000"%string) [""%string; ""%string])).
  reflexivity.
Defined.

(** X23: among values of which one at least is not read by [float], the
    result of [collapse] is the most frequent of the values not read, and
    of several equally frequent ones the smallest string; the values that
    are read play no part. *)
Theorem collapse_most_common
    (strip : string -> string) (parse_float : string -> option float)
    (format_mean : list float -> string) (values : list string) (c : string) :
  non_numeric_values strip parse_float values <> [] ->
  collapse strip parse_float format_mean values = Return c ->
  In c (non_numeric_values strip parse_float values)
  /\ (forall v, In v (non_numeric_values strip parse_float values) ->
        occurrences (non_numeric_values strip parse_float values) v
        <= occurrences (non_numeric_values strip parse_float values) c)
  /\ (forall v, In v (non_numeric_values strip parse_float values) ->
        occurrences (non_numeric_values strip parse_float values) v
        = occurrences (non_numeric_values strip parse_float values) c ->
        String.leb c v = true).
Proof.
  intros Hnn Hc.
  destruct (collapse_picks_mode strip parse_float format_mean values Hnn)
    as (c' & Ec & H).
  rewrite Ec in Hc. injection Hc as <-. exact H.
Qed.

Lemma collapse_most_common_witness :
  In "high"%string ["low"%string; "high"%string; "low"%string; "high"%string]
  /\ (forall v, In v ["low"%string; "high"%string; "low"%string; "high"%string] ->
        occurrences ["low"%string; "high"%string; "low"%string; "high"%string] v
        <= occurrences ["low"%string; "high"%string; "low"%string; "high"%string]
             "high")
  /\ (forall v, In v ["low"%string; "high"%string; "low"%string; "high"%string] ->
        occurrences ["low"%string; "high"%string; "low"%string; "high"%string] v
        = occurrences ["low"%string; "high"%string; "low"%string; "high"%string]
            "high" ->
        String.leb "high" v = true).
Proof.
  apply (collapse_most_common (fun s => s)
           (fun s => if String.eqb s "7" then Some 7%float else None)
           (fun _ => "7.000000"%string)
           ["low"%string; "7"%string; "high"%string; ""%string;
            "low"%string; "high"%string] "high"%string).
  - discriminate.
  - reflexivity.
Defined.

(** ** [accumulate_dataset] *)

Lemma string_append_inj a x y : String.append a x = String.append a y -> x = y.
Proof.
  induction a as [|c a IH]; simpl; intros H; [exact H |].
  injection H as H. apply IH. exact H.
Qed.

Lemma held_append acc e k v e' k' :
  held (append_value e k v acc) e' k'
  = if String.eqb e' e && String.eqb k' k then held acc e k ++ [v]
    else held acc e' k'.
Proof.
  unfold held, append_value, entity_columns at 1, column_values at 1.
  destruct (String.eqb_spec e' e) as [-> | He].
  - rewrite dict_get_set_same. simpl.
    destruct (String.eqb_spec k' k) as [-> | Hk].
    + rewrite dict_get_set_same. reflexivity.
    + rewrite dict_get_set_other by exact Hk. reflexivity.
  - rewrite dict_get_set_other by exact He. reflexivity.
Qed.

Lemma append_value_other acc e k v e' :
  e' <> e -> Dict.get e' (append_value e k v acc) = Dict.get e' acc.
Proof.
  intros H. unfold append_value. apply dict_get_set_other. exact H.
Qed.

Section AccumulateFacts.

Variables (strip : string -> string) (str_int : Z -> string).
Variables (dataset_name id_field : string).

Lemma feature_key_inj c c' :
  feature_key dataset_name c = feature_key dataset_name c' -> c = c'.
Proof.
  unfold feature_key. intros H.
  apply string_append_inj in H. apply string_append_inj in H. exact H.
Qed.

Lemma feature_key_eqb c c' :
  String.eqb (feature_key dataset_name c) (feature_key dataset_name c')
  = String.eqb c c'.
Proof.
  destruct (String.eqb_spec c c') as [-> | H].
  - apply String.eqb_refl.
  - apply String.eqb_neq. intros E. apply H. apply feature_key_inj. exact E.
Qed.

(** One row adds, for an entity and a column, the value of the column if
    the row has it; the identifier column adds nothing. *)
Lemma accumulate_row_held e (row : dict string) : forall acc e' col,
  NoDup (Dict.keys row) ->
  held (accumulate_row dataset_name id_field e row acc) e' (feature_key dataset_name col)
  = held acc e' (feature_key dataset_name col)
    ++ (if String.eqb e' e && negb (String.eqb col id_field)
        then match Dict.get col row with Some v => [v] | None => [] end
        else []).
Proof.
  unfold accumulate_row, Dict.keys.
  induction row as [|[c v] row IH]; intros acc e' col Hnd; cbn [fold_left].
  - cbn [Dict.get]. destruct (_ && _); rewrite app_nil_r; reflexivity.
  - simpl in Hnd. inversion Hnd as [|? ? Hnot Hnd']; subst.
    rewrite (IH _ e' col Hnd'). cbn [fst snd Dict.get].
    destruct (String.eqb_spec c col) as [-> | Hc].
    + assert (Hnone : Dict.get col row = None).
      { destruct (Dict.get col row) as [x |] eqn:E; [| reflexivity].
        exfalso. apply Hnot. clear -E.
        induction row as [|[k y] row IH]; [discriminate |].
        simpl in *. destruct (String.eqb_spec k col); [left; assumption |].
        right. apply IH. exact E. }
      rewrite Hnone.
      destruct (String.eqb col id_field) eqn:Eid.
      * rewrite andb_false_r. reflexivity.
      * rewrite held_append. rewrite String.eqb_refl.
        rewrite andb_true_r.
        destruct (String.eqb e' e) eqn:Ee; cbn [andb negb].
        -- apply String.eqb_eq in Ee. subst. rewrite app_nil_r. reflexivity.
        -- rewrite app_nil_r. reflexivity.
    + destruct (String.eqb c id_field) eqn:Eid; [reflexivity |].
      rewrite held_append. rewrite feature_key_eqb.
      rewrite (String.eqb_sym col c).
      apply String.eqb_neq in Hc. rewrite Hc, andb_false_r. reflexivity.
Qed.

Lemma accumulate_row_other e (row : dict string) : forall acc e',
  e' <> e ->
  Dict.get e' (accumulate_row dataset_name id_field e row acc) = Dict.get e' acc.
Proof.
  unfold accumulate_row.
  induction row as [|[c v] row IH]; intros acc e' He; cbn [fold_left];
    [reflexivity |].
  rewrite IH by exact He. cbn [fst snd].
  destruct (String.eqb c id_field); [reflexivity |].
  apply append_value_other. exact He.
Qed.

Lemma accumulate_rows_outcome rows : forall counts acc,
  fst (accumulate_rows strip dataset_name id_field rows counts acc)
  = if forallb (has_id id_field) rows
    then Return (fold_left counter_incr (counted_ids strip id_field rows) counts)
    else Raise (KeyError (missing_id_message dataset_name id_field)).
Proof.
  induction rows as [|row rows IH]; intros counts acc;
    cbn [accumulate_rows forallb counted_ids]; [reflexivity |].
  unfold has_id at 1.
  destruct (Dict.get id_field row) as [raw |]; [| reflexivity].
  cbn [andb].
  destruct (String.eqb (strip raw) ""); [apply IH |].
  rewrite IH. reflexivity.
Qed.

Lemma accumulate_rows_other rows e : forall counts acc,
  e = ""%string \/ rows_of strip id_field e rows = [] ->
  Dict.get e (snd (accumulate_rows strip dataset_name id_field rows counts acc))
  = Dict.get e acc.
Proof.
  induction rows as [|row rows IH]; intros counts acc He;
    cbn [accumulate_rows]; [reflexivity |].
  cbn [rows_of filter] in He. fold (rows_of strip id_field e rows) in He.
  destruct (Dict.get id_field row) as [raw |]; [| reflexivity].
  assert (He' : e = ""%string \/ rows_of strip id_field e rows = []).
  { destruct He as [He | He]; [left; exact He |].
    right. destruct (String.eqb (strip raw) e); [discriminate | exact He]. }
  destruct (String.eqb_spec (strip raw) "") as [Eblank | Hne].
  - apply IH. exact He'.
  - rewrite IH by exact He'.
    apply accumulate_row_other.
    destruct He as [-> | He]; [congruence |].
    intros ->. rewrite String.eqb_refl in He. discriminate.
Qed.

Lemma accumulate_rows_held rows e col : forall counts acc,
  forallb (has_id id_field) rows = true ->
  well_formed_rows rows ->
  e <> ""%string ->
  held (snd (accumulate_rows strip dataset_name id_field rows counts acc))
       e (feature_key dataset_name col)
  = held acc e (feature_key dataset_name col)
    ++ (if String.eqb col id_field then []
        else values_of col (rows_of strip id_field e rows)).
Proof.
  induction rows as [|row rows IH]; intros counts acc Hid Hwf He;
    cbn [accumulate_rows].
  - cbn [rows_of filter values_of snd].
    destruct (String.eqb col id_field); rewrite app_nil_r; reflexivity.
  - cbn [forallb] in Hid. apply andb_true_iff in Hid as [Hrow Hid].
    inversion Hwf as [|? ? Hndr Hwf']; subst.
    unfold has_id in Hrow. cbn [rows_of filter].
    fold (rows_of strip id_field e rows).
    destruct (Dict.get id_field row) as [raw |] eqn:Eraw; [| discriminate].
    destruct (String.eqb_spec (strip raw) "") as [Eblank | Hne].
    + rewrite (IH _ _ Hid Hwf' He).
      destruct (String.eqb_spec (strip raw) e) as [E' | _]; [congruence |].
      reflexivity.
    + rewrite (IH _ _ Hid Hwf' He).
      rewrite (accumulate_row_held (strip raw) row acc e col Hndr).
      rewrite <- app_assoc. f_equal.
      rewrite (String.eqb_sym e (strip raw)).
      destruct (String.eqb (strip raw) e); cbn [andb];
        destruct (String.eqb col id_field); cbn [negb values_of app];
        try reflexivity.
      destruct (Dict.get col row); reflexivity.
Qed.

Lemma counted_ids_occurrences rows e :
  e <> ""%string ->
  occurrences (counted_ids strip id_field rows) e
  = Z.of_nat (length (rows_of strip id_field e rows)).
Proof.
  intros He. unfold occurrences.
  induction rows as [|row rows IH]; cbn [counted_ids rows_of filter];
    [reflexivity |].
  fold (rows_of strip id_field e rows).
  destruct (Dict.get id_field row) as [raw |]; [| exact IH].
  destruct (String.eqb_spec (strip raw) "") as [Eb | Hnb].
  - destruct (String.eqb_spec (strip raw) e); [congruence | exact IH].
  - cbn [count_occ].
    destruct (string_dec (strip raw) e) as [-> | Hne].
    + rewrite String.eqb_refl. cbn [length]. rewrite !Nat2Z.inj_succ, IH.
      reflexivity.
    + apply String.eqb_neq in Hne. rewrite Hne. exact IH.
Qed.

Lemma counted_ids_nonblank rows : ~ In ""%string (counted_ids strip id_field rows).
Proof.
  induction rows as [|row rows IH]; cbn [counted_ids]; [tauto |].
  destruct (Dict.get id_field row) as [raw |]; [| exact IH].
  destruct (String.eqb_spec (strip raw) ""); [exact IH |].
  intros [H | H]; [congruence | exact (IH H)].
Qed.

(** The last loop adds to each counted entity its number of records. *)
Lemma record_counts_held (counts : dict Z) : forall acc e k,
  NoDup (Dict.keys counts) ->
  held (fold_left
          (fun acc et =>
             append_value (fst et) (feature_key dataset_name "records") (str_int (snd et)) acc)
          counts acc) e k
  = held acc e k
    ++ (if String.eqb k (feature_key dataset_name "records")
        then match Dict.get e counts with
             | Some n => [str_int n]
             | None => []
             end
        else []).
Proof.
  unfold Dict.keys.
  induction counts as [|[e0 n] counts IH]; intros acc e k Hnd; cbn [fold_left].
  - cbn [Dict.get]. destruct (String.eqb k (feature_key dataset_name "records"));
      rewrite app_nil_r; reflexivity.
  - simpl in Hnd. inversion Hnd as [|? ? Hnot Hnd']; subst.
    rewrite (IH _ e k Hnd'). cbn [fst snd Dict.get]. rewrite held_append.
    destruct (String.eqb_spec e0 e) as [-> | He].
    + assert (Hnone : Dict.get e counts = None).
      { destruct (Dict.get e counts) as [x |] eqn:E; [| reflexivity].
        exfalso. apply Hnot. clear -E.
        induction counts as [|[k' y] counts IH]; [discriminate |].
        simpl in *. destruct (String.eqb_spec k' e); [left; assumption |].
        right. apply IH. exact E. }
      rewrite Hnone, String.eqb_refl. cbn [andb].
      destruct (String.eqb_spec k (feature_key dataset_name "records")) as [-> | Hk].
      * rewrite app_nil_r. reflexivity.
      * rewrite app_nil_r. reflexivity.
    + rewrite (String.eqb_sym e e0).
      apply String.eqb_neq in He. rewrite He. reflexivity.
Qed.

Lemma record_counts_other (counts : dict Z) : forall acc e,
  ~ In e (Dict.keys counts) ->
  Dict.get e (fold_left
                (fun acc et =>
                   append_value (fst et) (feature_key dataset_name "records") (str_int (snd et)) acc)
                counts acc)
  = Dict.get e acc.
Proof.
  unfold Dict.keys.
  induction counts as [|[e0 n] counts IH]; intros acc e Hnot; cbn [fold_left];
    [reflexivity |].
  simpl in Hnot. rewrite IH by tauto. cbn [fst snd].
  apply append_value_other. intros ->. tauto.
Qed.

Lemma dict_get_None_keys {V} (d : dict V) k :
  Dict.get k d = None -> ~ In k (Dict.keys d).
Proof.
  unfold Dict.keys. induction d as [|[k' x] d IH]; simpl; [tauto |].
  destruct (String.eqb_spec k' k) as [-> | Hne]; [discriminate |].
  intros H [E | Hin]; [congruence | exact (IH H Hin)].
Qed.

Lemma accumulate_dataset_unfold rows acc :
  accumulate_dataset strip str_int dataset_name id_field rows acc
  = if forallb (has_id id_field) rows
    then (Return tt,
          fold_left
            (fun acc et =>
               append_value (fst et) (feature_key dataset_name "records") (str_int (snd et)) acc)
            (Counter (counted_ids strip id_field rows))
            (snd (accumulate_rows strip dataset_name id_field rows [] acc)))
    else (Raise (KeyError (missing_id_message dataset_name id_field)),
          snd (accumulate_rows strip dataset_name id_field rows [] acc)).
Proof.
  unfold accumulate_dataset.
  pose proof (accumulate_rows_outcome rows [] acc) as H.
  destruct (accumulate_rows strip dataset_name id_field rows [] acc)
    as [[counts | e] acc'].
  - cbn [fst snd] in *.
    destruct (forallb (has_id id_field) rows); [| discriminate].
    injection H as ->. reflexivity.
  - cbn [fst snd] in *.
    destruct (forallb (has_id id_field) rows); [discriminate |].
    injection H as ->. reflexivity.
Qed.

(** X24: [accumulate_dataset] raises exactly when some row lacks the
    identifier column, and then the [KeyError] whose message names the
    column and the dataset; rows with an empty identifier do not make it
    raise. *)
Theorem accumulate_dataset_outcome (rows : list (dict string))
    (acc : accumulator) :
  fst (accumulate_dataset strip str_int dataset_name id_field rows acc)
  = if forallb (has_id id_field) rows then Return tt
    else Raise (KeyError (missing_id_message dataset_name id_field)).
Proof.
  rewrite accumulate_dataset_unfold.
  destruct (forallb (has_id id_field) rows); reflexivity.
Qed.

(** X25: when every row has the identifier column, [accumulate_dataset]
    appends, for an entity with a non-empty identifier and a column, to the
    values held under [dataset_name__column]: the values of the column in
    the entity's rows, in the order of the rows (none for the identifier
    column), and then, for the column name [records] and an entity with at
    least one row, the number of its rows as a string. What was held before
    stays in front. *)
Theorem accumulate_dataset_values (rows : list (dict string))
    (acc : accumulator) (e col : string) :
  forallb (has_id id_field) rows = true ->
  well_formed_rows rows ->
  e <> ""%string ->
  held (snd (accumulate_dataset strip str_int dataset_name id_field rows acc))
       e (feature_key dataset_name col)
  = held acc e (feature_key dataset_name col)
    ++ (if String.eqb col id_field then []
        else values_of col (rows_of strip id_field e rows))
    ++ (if String.eqb col "records"
           && negb (Nat.eqb (length (rows_of strip id_field e rows)) 0)
        then [str_int (Z.of_nat (length (rows_of strip id_field e rows)))]
        else []).
Proof.
  intros Hid Hwf He. rewrite accumulate_dataset_unfold, Hid. cbn [snd].
  rewrite record_counts_held by (apply counter_NoDup; constructor).
  rewrite (accumulate_rows_held rows e col [] acc Hid Hwf He).
  rewrite <- app_assoc. do 2 f_equal.
  rewrite feature_key_eqb.
  destruct (String.eqb col "records"); [| reflexivity]. cbn [andb].
  unfold Counter. rewrite counter_get. cbn [Dict.get].
  rewrite (counted_ids_occurrences rows e He).
  destruct (length (rows_of strip id_field e rows)) as [|n]; reflexivity.
Qed.

(** X26: [accumulate_dataset] leaves alone every entity that is not the
    stripped identifier of a row, and the entity of the empty identifier
    always: rows whose identifier is blank are skipped. This holds also
    when it raises. *)
Theorem accumulate_dataset_untouched (rows : list (dict string))
    (acc : accumulator) (e : string) :
  e = ""%string \/ rows_of strip id_field e rows = [] ->
  Dict.get e
    (snd (accumulate_dataset strip str_int dataset_name id_field rows acc))
  = Dict.get e acc.
Proof.
  intros He. rewrite accumulate_dataset_unfold.
  destruct (forallb (has_id id_field) rows); cbn [snd].
  - rewrite record_counts_other.
    + apply accumulate_rows_other. exact He.
    + apply dict_get_None_keys. unfold Counter. rewrite counter_get.
      cbn [Dict.get].
      assert (Hocc : occurrences (counted_ids strip id_field rows) e = 0).
      { destruct (string_dec e "") as [-> | Hne].
        - unfold occurrences.
          rewrite (proj1 (count_occ_not_In string_dec _ _)
                     (counted_ids_nonblank rows)).
          reflexivity.
        - destruct He as [He | He]; [contradiction |].
          rewrite (counted_ids_occurrences rows e Hne), He. reflexivity. }
      rewrite Hocc. reflexivity.
  - apply accumulate_rows_other. exact He.
Qed.

End AccumulateFacts.

Lemma accumulate_dataset_values_witness :
  held (snd (accumulate_dataset (fun s => s) (fun _ => "2"%string)
               "iot" "farm_id"
               [[("farm_id", "f1"); ("ph", "6.5")];
                [("farm_id", ""); ("ph", "9.9")];
                [("farm_id", "f1"); ("ph", "7.0")]]%string []))
       "f1" (feature_key "iot" "ph")
  = ["6.5"; "7.0"]%string.
Proof.
  apply (accumulate_dataset_values (fun s => s) (fun _ => "2"%string)
           "iot" "farm_id"
           [[("farm_id", "f1"); ("ph", "6.5")];
            [("farm_id", ""); ("ph", "9.9")];
            [("farm_id", "f1"); ("ph", "7.0")]]%string [] "f1" "ph").
  - reflexivity.
  - repeat constructor; simpl; intuition discriminate.
  - discriminate.
Defined.

Lemma accumulate_dataset_untouched_witness :
  Dict.get ""%string
    (snd (accumulate_dataset (fun s => s) (fun _ => "1"%string)
            "iot" "farm_id"
            [[("farm_id", ""); ("ph", "9.9")];
             [("farm_id", "f1"); ("ph", "7.0")]]%string []))
  = None.
Proof.
  apply (accumulate_dataset_untouched (fun s => s) (fun _ => "1"%string)
           "iot" "farm_id"
           [[("farm_id", ""); ("ph", "9.9")];
            [("farm_id", "f1"); ("ph", "7.0")]]%string [] ""%string).
  left. reflexivity.
Defined.
